(** * vanity-js: a shallow embedding of the vanity address search

    The program (app.ts) derives Aptos addresses from freshly generated
    Ed25519 keys, compares their lowercase hex rendering against a
    configured prefix and suffix inside worker threads, and aggregates the
    workers' messages in the main thread.  The sources hold two versions
    of app.ts; the one modelled is the one with progress reporting and the
    time estimate.  The other has the same address derivation, the same
    match test and the same result message, and no progress events.

    Layout of this development:
    - [Keccak]    : SHA3-256, the digest behind [createHash('sha3-256')];
    - [JSNumber]  : the part of IEEE double arithmetic the counters use;
    - [Hex]       : [toString(16)], [padStart], [Buffer.from(_, 'hex')],
                    [startsWith], [endsWith];
    - [App]       : the functions of app.ts (address derivation, estimate,
                    worker loop, message handler of the main thread);
    - [Spec]      : the vocabulary of the statements;
    - [AppLegacy] : the version of app.ts without progress reporting;
    - lemmas on each part, the theorems for the claims C1 to C10, and
      further properties of the code.

    Outside the model: the Ed25519 key generation and public-key
    derivation of the Aptos SDK (a parameter [publicKey], the generated
    keys being the input of the worker loop), the value of
    [Math.log(0.05)] (a parameter), wall-clock readings (an input of each
    handled event) and the formatting of numbers on the console. *)

From Stdlib Require Import ZArith NArith List Bool Lia.
From Stdlib.Strings Require Import String Ascii Byte.
From Stdlib Require Import QArith Qround Qpower Lqa.
Import ListNotations.
Open Scope Z_scope.

(** ** SHA3-256 (FIPS 202), as computed by Node's [createHash('sha3-256')] *)

Module Keccak.

(** A lane is a 64-bit word held in [Z]; the state has 25 lanes, lane
    [(x, y)] at index [x + 5 * y]. *)
Definition state := list Z.

Definition lane (st : state) (i : nat) : Z := nth i st 0.

Definition rotl64 (w : Z) (n : Z) : Z :=
  Z.land (Z.lor (Z.shiftl w n) (Z.shiftr w (64 - n))) (Z.ones 64).

Definition rotation_offsets : list Z :=
  [ 0;  1; 62; 28; 27;
   36; 44;  6; 55; 20;
    3; 10; 43; 25; 39;
   41; 45; 15; 21;  8;
   18;  2; 61; 56; 14].

Definition round_constants : list Z :=
  [0x0000000000000001; 0x0000000000008082; 0x800000000000808A;
   0x8000000080008000; 0x000000000000808B; 0x0000000080000001;
   0x8000000080008081; 0x8000000000008009; 0x000000000000008A;
   0x0000000000000088; 0x0000000080008009; 0x000000008000000A;
   0x000000008000808B; 0x800000000000008B; 0x8000000000008089;
   0x8000000000008003; 0x8000000000008002; 0x8000000000000080;
   0x000000000000800A; 0x800000008000000A; 0x8000000080008081;
   0x8000000000008080; 0x0000000080000001; 0x8000000080008008].

Definition theta (st : state) : state :=
  let C := map (fun x => Z.lxor (lane st x)
                         (Z.lxor (lane st (x + 5))
                         (Z.lxor (lane st (x + 10))
                         (Z.lxor (lane st (x + 15)) (lane st (x + 20))))))
               (seq 0 5) in
  let D := fun x => Z.lxor (nth ((x + 4) mod 5) C 0)
                           (rotl64 (nth ((x + 1) mod 5) C 0) 1) in
  map (fun i => Z.lxor (lane st i) (D (i mod 5)%nat)) (seq 0 25).

(** rho and pi together: the lane written at [(X, Y)] is lane
    [((X + 3 * Y) mod 5, X)] rotated by its offset. *)
Definition rho_pi (st : state) : state :=
  map (fun j => let X := (j mod 5)%nat in
                let Y := (j / 5)%nat in
                let src := (((X + 3 * Y) mod 5) + 5 * X)%nat in
                rotl64 (lane st src) (nth src rotation_offsets 0))
      (seq 0 25).

Definition chi (st : state) : state :=
  map (fun j => let x := (j mod 5)%nat in
                let row := (5 * (j / 5))%nat in
                Z.lxor (lane st j)
                       (Z.ldiff (lane st (row + (x + 2) mod 5))
                                (lane st (row + (x + 1) mod 5))))
      (seq 0 25).

Definition iota (rc : Z) (st : state) : state :=
  match st with
  | [] => []
  | l0 :: rest => Z.lxor l0 rc :: rest
  end.

Definition round (st : state) (rc : Z) : state :=
  iota rc (chi (rho_pi (theta st))).

Definition keccak_f (st : state) : state :=
  fold_left round round_constants st.

(** The rate of SHA3-256 is 1088 bits: 136 bytes, 17 lanes. *)
Definition rate : nat := 136.

Definition pad (len : nat) : list Z :=
  let q := (rate - len mod rate)%nat in
  if (q =? 1)%nat then [0x86]
  else 0x06 :: repeat 0 (q - 2) ++ [0x80].

Fixpoint le_bytes_to_Z (bs : list Z) : Z :=
  match bs with
  | [] => 0
  | b :: rest => Z.lor b (Z.shiftl (le_bytes_to_Z rest) 8)
  end.

Definition block_lane (block : list Z) (i : nat) : Z :=
  le_bytes_to_Z (firstn 8 (skipn (8 * i) block)).

Definition xor_block (st : state) (block : list Z) : state :=
  map (fun i => if (i <? 17)%nat
                then Z.lxor (lane st i) (block_lane block i)
                else lane st i)
      (seq 0 25).

Fixpoint absorb (blocks : nat) (st : state) (bytes : list Z) : state :=
  match blocks with
  | O => st
  | S k => absorb k (keccak_f (xor_block st (firstn rate bytes)))
                  (skipn rate bytes)
  end.

Definition byte_of_Z (z : Z) : byte :=
  match Byte.of_N (Z.to_N (Z.land z 255)) with
  | Some b => b
  | None => x00
  end.

Definition Z_of_byte (b : byte) : Z := Z.of_N (Byte.to_N b).

Definition state_byte (st : state) (i : nat) : byte :=
  byte_of_Z (Z.shiftr (lane st (i / 8)) (8 * Z.of_nat (i mod 8))).

Definition sha3_256 (msg : list byte) : list byte :=
  let padded := map Z_of_byte msg ++ pad (List.length msg) in
  let st := absorb (List.length padded / rate) (repeat 0 25) padded in
  map (state_byte st) (seq 0 32).

End Keccak.

(** ** JavaScript numbers used as counters

    [localGenCount], [foundCount] and [totalGenerated] are IEEE doubles
    holding integers.  A sum of two integers is rounded to the nearest
    double (ties to even): exact up to 2^53, coarser above.  Magnitudes
    from 2^1024 on ([Infinity]) are outside this model. *)

Module JSNumber.

Definition round_nonneg (z : Z) : Z :=
  if z <? 2 ^ 53 then z
  else
    let e := Z.log2 z - 52 in
    let q := Z.shiftr z e in
    let r := Z.land z (Z.ones e) in
    let half := Z.shiftl 1 (e - 1) in
    let q' := if r <? half then q
              else if half <? r then q + 1
              else if Z.even q then q else q + 1 in
    Z.shiftl q' e.

Definition round (z : Z) : Z :=
  if z <? 0 then - round_nonneg (- z) else round_nonneg z.

(** [a + b] *)
Definition add (a b : Z) : Z := round (a + b).

(** [a++] *)
Definition incr (a : Z) : Z := add a 1.

(** [a % b] for a non-negative [a] and a positive [b] (exact). *)
Definition rem (a b : Z) : Z := Z.rem a b.

End JSNumber.

(** ** Hex rendering and parsing *)

Module Hex.

Definition digit (n : N) : ascii :=
  if (n <? 10)%N then ascii_of_N (48 + n) else ascii_of_N (87 + n).

Fixpoint digits16 (fuel : nat) (n : N) (acc : string) : string :=
  match fuel with
  | O => acc
  | S k =>
      let acc' := String (digit (n mod 16)) acc in
      if (n <? 16)%N then acc' else digits16 k (n / 16) acc'
  end.

(** [n.toString(16)] for an integer [n] (a number or a bigint). *)
Definition toString16 (z : Z) : string :=
  let n := Z.to_N (Z.abs z) in
  let ds := digits16 (S (N.to_nat (N.log2 n))) n EmptyString in
  if z <? 0 then String "-" ds else ds.

Fixpoint repeat_char (c : ascii) (n : nat) : string :=
  match n with
  | O => EmptyString
  | S k => String c (repeat_char c k)
  end.

(** [s.padStart(n, c)] for a one-character pad string. *)
Definition padStart (n : nat) (c : ascii) (s : string) : string :=
  (repeat_char c (n - String.length s) ++ s)%string.

(** The value of a hex digit, either case; [None] for any other
    character. *)
Definition unhex (c : ascii) : option N :=
  let n := N_of_ascii c in
  if ((48 <=? n) && (n <=? 57))%N then Some (n - 48)%N
  else if ((97 <=? n) && (n <=? 102))%N then Some (n - 87)%N
  else if ((65 <=? n) && (n <=? 70))%N then Some (n - 55)%N
  else None.

(** [Buffer.from(s, 'hex')]: decodes pairs of hex digits and stops at the
    first pair that is not two hex digits; a trailing unpaired character
    is dropped. *)
Fixpoint Buffer_from_hex (s : string) : list byte :=
  match s with
  | String a (String b rest) =>
      match unhex a, unhex b with
      | Some h, Some l =>
          Keccak.byte_of_Z (Z.of_N (16 * h + l)) :: Buffer_from_hex rest
      | _, _ => []
      end
  | _ => []
  end.

(** [s.startsWith(p)] *)
Definition startsWith (s p : string) : bool := String.prefix p s.

(** [s.endsWith(p)] *)
Definition endsWith (s p : string) : bool :=
  let n := String.length s in
  let m := String.length p in
  (m <=? n)%nat && String.eqb (substring (n - m) m s) p.

Definition is_lower_hex (c : ascii) : bool :=
  let n := N_of_ascii c in
  (((48 <=? n) && (n <=? 57)) || ((97 <=? n) && (n <=? 102)))%N.

End Hex.

(** ** app.ts *)

Module App.

(** [interface CliArgs].  commander hands [count] and [threads] over as
    the strings typed on the command line and the comparisons coerce
    them; the model holds the integer they denote. *)
Record CliArgs := {
  prefix : option string;
  suffix : option string;
  multisig : bool;
  count : Z;
  threads : Z
}.

Definition SEQUENCE_NUMBER_MULTISIG : Z := 0.

(** Truthiness of an optional string: [undefined] and the empty string
    are falsy. *)
Definition truthy (s : option string) : bool :=
  match s with
  | Some (String _ _) => true
  | _ => false
  end.

(** [b => b.toString(16).padStart(2, '0')] *)
Definition byte_hex (b : byte) : string :=
  Hex.padStart 2 "0" (Hex.toString16 (Keccak.Z_of_byte b)).

Definition bytesToHex (bytes : list byte) : string :=
  String.concat EmptyString (map byte_hex bytes).

Definition createMultisigAccountAddress
    (creator : list byte) (creatorNonce : Z) : list byte :=
  let seed := list_byte_of_string "aptos_framework::multisig_account" in
  let nonceBytes := Hex.Buffer_from_hex (Hex.toString16 creatorNonce) in
  let combined := creator ++ seed ++ nonceBytes ++ [xff] in
  Keccak.sha3_256 combined.

(** *** Estimate *)

(** The values [attemptsNeeded] takes: an integer, or [Infinity]. *)
Inductive number :=
| Num (z : Z)
| Infinity.

(** What [calculateEstimate] returns, up to the benchmark: the quotient
    of [attemptsNeeded] by the measured rate and its formatting depend
    on wall-clock time and are not modelled. *)
Inductive Estimate :=
| ShouldBeInstant
| FormattedDuration (attemptsNeeded : number).

Section Estimate.

(** The double [-Math.log(0.05)], as a rational.  The other
    operations of [calculateEstimate] are exact on doubles: powers of
    16 up to 16^255, their inverses, and a quotient by such an
    inverse. *)
Variable neg_log_005 : Q.

Definition strlen (s : option string) : nat :=
  match s with
  | Some t => String.length t
  | None => O
  end.

(** [16 ** n]; [None] is [Infinity], reached at 16^256 = 2^1024. *)
Definition pow16 (n : nat) : option Q :=
  if (n <? 256)%nat then Some (inject_Z (16 ^ Z.of_nat n)) else None.

Definition probabilityPerTry (matchNeeded : nat) : Q :=
  match pow16 matchNeeded with
  | Some p => Qinv p
  | None => inject_Z 0
  end.

Definition attemptsNeeded (matchNeeded : nat) : number :=
  let p := probabilityPerTry matchNeeded in
  if Qeq_bool p (inject_Z 0) then Infinity
  else Num (Qceiling (Qdiv neg_log_005 p)).

Definition calculateEstimate (prefix suffix : option string) : Estimate :=
  if negb (truthy prefix) && negb (truthy suffix) then ShouldBeInstant
  else
    let matchNeeded := (strlen prefix + strlen suffix)%nat in
    FormattedDuration (attemptsNeeded matchNeeded).

End Estimate.

(** *** Worker thread *)

Record WorkerData := {
  workerData_prefix : option string;
  workerData_suffix : option string;
  workerData_multisig : bool
}.

Inductive Message :=
| Progress (count : Z)
| Result (address privateKey : string) (multisigAddress : option string).

(** The two guards of the loop body: the iteration goes on to post a
    result iff neither [continue] is taken. *)
Definition matches (prefix suffix : option string) (address : string) : bool :=
  negb (truthy prefix
        && negb (Hex.startsWith address (match prefix with Some p => p | None => EmptyString end)))
  && negb (truthy suffix
           && negb (Hex.endsWith address (match suffix with Some s => s | None => EmptyString end))).

Section Worker.

(** [privateKey.publicKey().toUint8Array()] of the Aptos SDK, on the
    bytes of the private key.  A private key is represented by its
    bytes, [privateKey.toUint8Array()]. *)
Variable publicKey : list byte -> list byte.

Definition authKeyBytesVec (privateKey : list byte) : list byte :=
  let withScheme := publicKey privateKey ++ [x00] in
  Keccak.sha3_256 withScheme.

(** One turn of the [while (true)] loop of [generateKey], on the key
    [Ed25519PrivateKey.generate()] returned: the new value of
    [localGenCount] and the messages posted. *)
Definition iteration (wd : WorkerData) (localGenCount : Z)
    (privateKey : list byte) : Z * list Message :=
  let localGenCount := JSNumber.incr localGenCount in
  let progress :=
    if JSNumber.rem localGenCount 1000 =? 0 then [Progress 1000] else [] in
  let accountAddressBytes := authKeyBytesVec privateKey in
  let searchBytes :=
    if workerData_multisig wd
    then createMultisigAccountAddress accountAddressBytes
                                      SEQUENCE_NUMBER_MULTISIG
    else accountAddressBytes in
  let address := bytesToHex searchBytes in
  if matches (workerData_prefix wd) (workerData_suffix wd) address
  then (localGenCount,
        progress ++
        [Result address (bytesToHex privateKey)
                (if workerData_multisig wd then Some address else None)])
  else (localGenCount, progress).

(** The loop, run on the keys generated so far. *)
Fixpoint generateKey (wd : WorkerData) (localGenCount : Z)
    (keys : list (list byte)) : Z * list Message :=
  match keys with
  | [] => (localGenCount, [])
  | k :: rest =>
      let '(c, out) := iteration wd localGenCount k in
      let '(c', out') := generateKey wd c rest in
      (c', out ++ out')
  end.

(** A worker starts with [localGenCount = 0]. *)
Definition worker (wd : WorkerData) (keys : list (list byte)) : list Message :=
  snd (generateKey wd 0 keys).

End Worker.

(** *** Main thread *)

(** Lines written to the console.  The text of each is in the comment;
    rates and totals are kept as the numbers they are computed from. *)
Inductive Output :=
| OutNewline                            (* "\n" *)
| OutRate (total elapsedMs : Z)         (* "\rGenerating... N addresses per second" *)
| OutMultisig (address : string)        (* "Multisig account address: 0x..." *)
| OutStandard (address : string)        (* "Standard account address: 0x..." *)
| OutPrivateKey (key : string)          (* "Private key:              0x...\n" *)
| OutFinalRate (total elapsedMs : Z)    (* "Final generation rate: N addresses/second" *)
| OutElapsed (elapsedMs : Z)            (* "Elapsed time: Ns" *)
| OutTotal (total : Z).                 (* "Total addresses generated: N" *)

Record Main := {
  foundCount : Z;
  totalGenerated : Z;
  lastUpdateTime : Z;
  stdout : list Output;
  exitCode : option Z
}.

Definition workerData (args : CliArgs) : WorkerData :=
  {| workerData_prefix := prefix args;
     workerData_suffix := suffix args;
     workerData_multisig := multisig args |}.

Definition workers (args : CliArgs) : list WorkerData :=
  repeat (workerData args) (Z.to_nat (threads args)).

(** The ['message'] handler; [now] is the reading of [Date.now()] the
    handler takes. *)
Definition on_message (args : CliArgs) (startTime : Z) (st : Main)
    (now : Z) (message : Message) : Main :=
  match message with
  | Progress n =>
      let total := JSNumber.add (totalGenerated st) n in
      if 1000 <=? now - lastUpdateTime st then
        {| foundCount := foundCount st;
           totalGenerated := total;
           lastUpdateTime := now;
           stdout := stdout st ++ [OutRate total (now - startTime)];
           exitCode := exitCode st |}
      else
        {| foundCount := foundCount st;
           totalGenerated := total;
           lastUpdateTime := lastUpdateTime st;
           stdout := stdout st;
           exitCode := exitCode st |}
  | Result address privateKey multisigAddress =>
      let found := JSNumber.incr (foundCount st) in
      let lines :=
        [OutNewline] ++
        (match multisigAddress with
         | Some (String c m) => [OutMultisig (String c m); OutStandard address]
         | _ => [OutStandard address]
         end) ++
        [OutPrivateKey privateKey] in
      if count args <=? found then
        {| foundCount := found;
           totalGenerated := totalGenerated st;
           lastUpdateTime := lastUpdateTime st;
           stdout := stdout st ++ lines ++
                     [OutFinalRate (totalGenerated st) (now - startTime);
                      OutElapsed (now - startTime);
                      OutTotal (totalGenerated st)];
           exitCode := Some 0 |}
      else
        {| foundCount := found;
           totalGenerated := totalGenerated st;
           lastUpdateTime := lastUpdateTime st;
           stdout := stdout st ++ lines;
           exitCode := exitCode st |}
  end.

(** The event loop: messages are handled one at a time, in arrival
    order, until [process.exit] is called. *)
Fixpoint run (args : CliArgs) (startTime : Z) (st : Main)
    (events : list (Z * Message)) : Main :=
  match events with
  | [] => st
  | (now, message) :: rest =>
      match exitCode st with
      | Some _ => st
      | None => run args startTime (on_message args startTime st now message) rest
      end
  end.

Definition initial (startTime : Z) : Main :=
  {| foundCount := 0;
     totalGenerated := 0;
     lastUpdateTime := startTime;
     stdout := [];
     exitCode := None |}.

Definition main (args : CliArgs) (startTime : Z)
    (events : list (Z * Message)) : Main :=
  run args startTime (initial startTime) events.

End App.

(** ** Vocabulary of the statements *)

Module Spec.
Import App.

Fixpoint all_chars (f : ascii -> bool) (s : string) : bool :=
  match s with
  | EmptyString => true
  | String c rest => f c && all_chars f rest
  end.

(** A string over the alphabet [0-9a-f]. *)
Definition lower_hex (s : string) : bool := all_chars Hex.is_lower_hex s.

(** A configured prefix or suffix with a character outside [0-9a-f]. *)
Definition outside_lower_hex (s : option string) : bool :=
  match s with
  | Some t => negb (lower_hex t)
  | None => false
  end.

Definition is_progress (m : Message) : bool :=
  match m with Progress _ => true | Result _ _ _ => false end.

Definition is_result (m : Message) : bool :=
  match m with Progress _ => false | Result _ _ _ => true end.

Definition progress_events (ms : list Message) : Z :=
  Z.of_nat (List.length (filter is_progress ms)).

Definition result_events (ms : list Message) : Z :=
  Z.of_nat (List.length (filter is_result ms)).

Definition is_private_key_line (o : Output) : bool :=
  match o with OutPrivateKey _ => true | _ => false end.

(** Every result block printed ends with its private-key line. *)
Definition printed_results (out : list Output) : Z :=
  Z.of_nat (List.length (filter is_private_key_line out)).

(** The events the coordinator handles: those that arrive before
    [process.exit]. *)
Fixpoint handled (args : CliArgs) (startTime : Z) (st : Main)
    (events : list (Z * Message)) : list (Z * Message) :=
  match events with
  | [] => []
  | (now, message) :: rest =>
      match exitCode st with
      | Some _ => []
      | None =>
          (now, message)
            :: handled args startTime (on_message args startTime st now message) rest
      end
  end.

(** The minimal big-endian bytes of a natural number, most significant
    byte first; no byte at all for zero.  This follows the wording of
    the specification of the nonce, not the code. *)
Fixpoint big_endian_acc (fuel : nat) (n : N) (acc : list byte) : list byte :=
  match fuel with
  | O => acc
  | S k =>
      if (n =? 0)%N then acc
      else big_endian_acc k (n / 256)
             (Keccak.byte_of_Z (Z.of_N (n mod 256)) :: acc)
  end.

Definition minimal_big_endian (n : N) : list byte :=
  big_endian_acc (S (N.to_nat (N.log2 n))) n [].

Section Worker.
Variable publicKey : list byte -> list byte.

(** The hex string an iteration compares with the prefix and suffix. *)
Definition search_address (wd : WorkerData) (privateKey : list byte) : string :=
  bytesToHex
    (if workerData_multisig wd
     then createMultisigAccountAddress (authKeyBytesVec publicKey privateKey)
                                       SEQUENCE_NUMBER_MULTISIG
     else authKeyBytesVec publicKey privateKey).

(** The result message an iteration posts when its address matches. *)
Definition result_of (wd : WorkerData) (privateKey : list byte) : Message :=
  Result (search_address wd privateKey) (bytesToHex privateKey)
         (if workerData_multisig wd
          then Some (search_address wd privateKey) else None).

(** The generations that posted no result. *)
Definition non_matching (wd : WorkerData) (keys : list (list byte)) : Z :=
  Z.of_nat
    (List.length
       (filter (fun k => negb (existsb is_result
                                 (snd (iteration publicKey wd 0 k))))
               keys)).
End Worker.

(** The block the coordinator prints for one result. *)
Definition result_lines (address privateKey : string)
    (multisigAddress : option string) : list Output :=
  [OutNewline] ++
  (match multisigAddress with
   | Some (String c m) => [OutMultisig (String c m); OutStandard address]
   | _ => [OutStandard address]
   end) ++
  [OutPrivateKey privateKey].

(** The attempts of several workers, and what their progress events add
    up to. *)
Definition sumZ (l : list Z) : Z := fold_right Z.add 0 l.

Definition attempts (keyss : list (list (list byte))) : Z :=
  sumZ (map (fun keys => Z.of_nat (List.length keys)) keyss).

Definition whole_batches (keyss : list (list (list byte))) : Z :=
  sumZ (map (fun keys => 1000 * (Z.of_nat (List.length keys) / 1000)) keyss).

(** The multisig address as the specification words it: the digest of
    the creator, the seed, the minimal big-endian bytes of the nonce and
    the byte 0xFF. *)
Definition deriveMultisigAddress (creatorAddressBytes : list byte)
    (nonce : N) : list byte :=
  Keccak.sha3_256
    (creatorAddressBytes
     ++ list_byte_of_string "aptos_framework::multisig_account"
     ++ minimal_big_endian nonce ++ [xff]).

(** Sample data: the all-zero private key and a stand-in for the SDK's
    derivation that maps every key to the Ed25519 public key of the
    all-zero one. *)
Definition zero_key : list byte := repeat x00 32.

Definition zero_public_key : list byte :=
  Hex.Buffer_from_hex
    "3b6a27bcceb6a42d62a3a8d02a6f0d73653215771de243a63ac048a18b59da29".

Definition sample_publicKey (privateKey : list byte) : list byte :=
  zero_public_key.

(** The double V8 computes for [-Math.log(0.05)], 2.995732273553991. *)
Definition neg_log_005_double : Q := 6745789375439761 # 2251799813685248.

(** [merge ls l]: [l] interleaves the lists [ls], keeping the order of
    each. *)
Inductive merge {A : Type} : list (list A) -> list A -> Prop :=
| merge_done : forall ls, Forall (fun l => l = []) ls -> merge ls []
| merge_take : forall before x l after rest,
    merge (before ++ l :: after) rest ->
    merge (before ++ (x :: l) :: after) (x :: rest).

End Spec.

(** ** The version of app.ts without progress reporting

    Its [bytesToHex], [authKeyBytesVec] and [createMultisigAccountAddress]
    are those of [App], letter for letter; the worker loop has no counter
    and its message no [type] field; the handler counts every message in
    both [totalGenerated] and [foundCount]. *)

Module AppLegacy.
Import App.

Record Message := {
  address : string;
  privateKey : string;
  multisigAddress : option string
}.

Section Worker.

Variable publicKey : list byte -> list byte.

(** One turn of the [while (true)] loop: the messages posted. *)
Definition iteration (wd : WorkerData) (privateKey : list byte) : list Message :=
  let accountAddressBytes := authKeyBytesVec publicKey privateKey in
  let searchBytes :=
    if workerData_multisig wd
    then createMultisigAccountAddress accountAddressBytes
                                      SEQUENCE_NUMBER_MULTISIG
    else accountAddressBytes in
  let address := bytesToHex searchBytes in
  if matches (workerData_prefix wd) (workerData_suffix wd) address
  then [{| address := address;
           privateKey := bytesToHex privateKey;
           multisigAddress :=
             if workerData_multisig wd then Some address else None |}]
  else [].

Fixpoint generateKey (wd : WorkerData) (keys : list (list byte)) : list Message :=
  match keys with
  | [] => []
  | k :: rest => iteration wd k ++ generateKey wd rest
  end.

End Worker.

Record Main := {
  foundCount : Z;
  totalGenerated : Z;
  stdout : list Output;
  exitCode : option Z
}.

(** The ['message'] handler; [now] is the reading of [Date.now()] taken
    when the count is reached. *)
Definition on_message (args : CliArgs) (startTime : Z) (st : Main)
    (now : Z) (message : Message) : Main :=
  let total := JSNumber.incr (totalGenerated st) in
  let found := JSNumber.incr (foundCount st) in
  let lines :=
    (match multisigAddress message with
     | Some (String c m) =>
         [OutMultisig (String c m); OutStandard (address message)]
     | _ => [OutStandard (address message)]
     end) ++
    [OutPrivateKey (privateKey message)] in
  if count args <=? found then
    {| foundCount := found;
       totalGenerated := total;
       stdout := stdout st ++ lines ++
                 [OutElapsed (now - startTime); OutTotal total];
       exitCode := Some 0 |}
  else
    {| foundCount := found;
       totalGenerated := total;
       stdout := stdout st ++ lines;
       exitCode := exitCode st |}.

Fixpoint run (args : CliArgs) (startTime : Z) (st : Main)
    (events : list (Z * Message)) : Main :=
  match events with
  | [] => st
  | (now, message) :: rest =>
      match exitCode st with
      | Some _ => st
      | None => run args startTime (on_message args startTime st now message) rest
      end
  end.

Definition initial : Main :=
  {| foundCount := 0; totalGenerated := 0; stdout := []; exitCode := None |}.

Definition main (args : CliArgs) (startTime : Z)
    (events : list (Z * Message)) : Main :=
  run args startTime initial events.

End AppLegacy.

(** ** Further vocabulary *)

Module Vocabulary.
Import App Spec.

(** The hex string of a natural number, as [toString16] writes it. *)
Definition hex_string (n : N) : string := Hex.toString16 (Z.of_N n).

(** The elapsed times shown by the rate lines of an output, in order. *)
Fixpoint rate_times (out : list Output) : list Z :=
  match out with
  | [] => []
  | OutRate _ elapsedMs :: rest => elapsedMs :: rate_times rest
  | _ :: rest => rate_times rest
  end.

(** Every time of [l] is at least 1000 after the one before it, the
    first at least 1000 after [last]. *)
Fixpoint spaced_from (last : Z) (l : list Z) : Prop :=
  match l with
  | [] => True
  | t :: rest => last + 1000 <= t /\ spaced_from t rest
  end.

(** A configured prefix or suffix longer than an address. *)
Definition longer_than_address (s : option string) : bool :=
  match s with
  | Some t => (64 <? String.length t)%nat
  | None => false
  end.

(** The address an iteration tests matches the configured pattern. *)
Definition matching (publicKey : list byte -> list byte) (wd : WorkerData)
    (privateKey : list byte) : bool :=
  matches (workerData_prefix wd) (workerData_suffix wd)
          (search_address publicKey wd privateKey).

(** The address and key lines of an output, without the blank lines,
    rates and totals. *)
Definition is_result_line (o : Output) : bool :=
  match o with
  | OutMultisig _ | OutStandard _ | OutPrivateKey _ => true
  | _ => false
  end.

Definition result_lines_of (out : list Output) : list Output :=
  filter is_result_line out.

(** The configuration with another count. *)
Definition with_count (args : CliArgs) (c : Z) : CliArgs :=
  {| prefix := prefix args;
     suffix := suffix args;
     multisig := multisig args;
     count := c;
     threads := threads args |}.

(** A message of the older version, as a result message of the newer. *)
Definition with_type (m : AppLegacy.Message) : Message :=
  Result (AppLegacy.address m) (AppLegacy.privateKey m)
         (AppLegacy.multisigAddress m).

(** The result messages of an event sequence, as the older handler
    receives them. *)
Fixpoint without_type (events : list (Z * Message))
    : list (Z * AppLegacy.Message) :=
  match events with
  | [] => []
  | (now, Result a k m) :: rest =>
      (now, {| AppLegacy.address := a; AppLegacy.privateKey := k;
               AppLegacy.multisigAddress := m |}) :: without_type rest
  | (_, Progress _) :: rest => without_type rest
  end.

End Vocabulary.

(** ** Facts about the number model *)

Module JSNumberFacts.
Import JSNumber.

Lemma round_exact (z : Z) : - 2 ^ 53 <= z <= 2 ^ 53 -> round z = z.
Proof.
  intros [Hlo Hhi]. unfold round.
  assert (top : round_nonneg (2 ^ 53) = 2 ^ 53) by reflexivity.
  assert (small : forall y, 0 <= y <= 2 ^ 53 -> round_nonneg y = y).
  { intros y [Hy0 Hy]. destruct (Z.eq_dec y (2 ^ 53)) as [->|Hne]; [exact top|].
    unfold round_nonneg. destruct (Z.ltb_spec y (2 ^ 53)); [reflexivity|lia]. }
  destruct (Z.ltb_spec z 0).
  - rewrite small by lia. lia.
  - apply small. lia.
Qed.

Lemma add_exact (a b : Z) : - 2 ^ 53 <= a + b <= 2 ^ 53 -> add a b = a + b.
Proof. intros H. unfold add. now apply round_exact. Qed.

Lemma incr_below (a : Z) : 0 <= a < 2 ^ 53 -> incr a = a + 1.
Proof. intros H. unfold incr. apply add_exact. lia. Qed.

Lemma incr_top : incr (2 ^ 53) = 2 ^ 53.
Proof. reflexivity. Qed.

(** A counter that starts in [0, 2^53] stays there and never decreases. *)
Lemma incr_range (a : Z) :
  0 <= a <= 2 ^ 53 -> a <= incr a <= 2 ^ 53 /\ incr a <= a + 1.
Proof.
  intros H. destruct (Z.eq_dec a (2 ^ 53)) as [->|Hne].
  - rewrite incr_top. lia.
  - rewrite incr_below by lia. lia.
Qed.

End JSNumberFacts.

(** ** Facts about hex strings *)

Module HexFacts.
Import Hex App Spec.

Lemma append_empty (s : string) : (s ++ "")%string = s.
Proof. induction s as [|c s IH]; simpl; [reflexivity|now rewrite IH]. Qed.

Lemma append_assoc (s t u : string) :
  ((s ++ t) ++ u)%string = (s ++ (t ++ u))%string.
Proof. induction s as [|c s IH]; simpl; [reflexivity|now rewrite IH]. Qed.

Lemma length_append (s t : string) :
  String.length (s ++ t) = (String.length s + String.length t)%nat.
Proof. induction s as [|c s IH]; simpl; [reflexivity|now rewrite IH]. Qed.

Lemma bytesToHex_nil : bytesToHex [] = EmptyString.
Proof. reflexivity. Qed.

Lemma bytesToHex_cons (b : byte) (bs : list byte) :
  bytesToHex (b :: bs) = (byte_hex b ++ bytesToHex bs)%string.
Proof.
  unfold bytesToHex. simpl map.
  destruct bs as [|b' bs]; simpl.
  - now rewrite append_empty.
  - reflexivity.
Qed.

(** Each byte is rendered as exactly two characters. *)
Lemma byte_hex_two (b : byte) :
  exists h l, byte_hex b = String h (String l EmptyString).
Proof. destruct b; do 2 eexists; reflexivity. Qed.

Lemma byte_hex_decode (b : byte) (s : string) :
  Buffer_from_hex (byte_hex b ++ s) = b :: Buffer_from_hex s.
Proof. destruct b; reflexivity. Qed.

Lemma byte_hex_lower (b : byte) : lower_hex (byte_hex b) = true.
Proof. destruct b; reflexivity. Qed.

(** Decoding what [bytesToHex] wrote gives the bytes back. *)
Lemma Buffer_from_hex_bytesToHex (bs : list byte) :
  Buffer_from_hex (bytesToHex bs) = bs.
Proof.
  induction bs as [|b bs IH].
  - reflexivity.
  - rewrite bytesToHex_cons, byte_hex_decode, IH. reflexivity.
Qed.

Lemma all_chars_append (f : ascii -> bool) (s t : string) :
  all_chars f (s ++ t) = all_chars f s && all_chars f t.
Proof.
  induction s as [|c s IH]; simpl; [reflexivity|].
  rewrite IH. now rewrite andb_assoc.
Qed.

Lemma bytesToHex_lower (bs : list byte) : lower_hex (bytesToHex bs) = true.
Proof.
  induction bs as [|b bs IH]; [reflexivity|].
  rewrite bytesToHex_cons. unfold lower_hex.
  rewrite all_chars_append.
  fold (lower_hex (byte_hex b)). fold (lower_hex (bytesToHex bs)).
  now rewrite byte_hex_lower, IH.
Qed.

Lemma bytesToHex_length (bs : list byte) :
  String.length (bytesToHex bs) = (2 * List.length bs)%nat.
Proof.
  induction bs as [|b bs IH]; [reflexivity|].
  rewrite bytesToHex_cons, length_append, IH.
  destruct (byte_hex_two b) as (h & l & ->). simpl. lia.
Qed.

End HexFacts.

(** ** Facts about [startsWith], [endsWith] and the match predicate *)

Module MatchFacts.
Import Hex App Spec HexFacts.

Lemma startsWith_spec (s p : string) :
  startsWith s p = true <-> exists rest, s = (p ++ rest)%string.
Proof.
  unfold startsWith. revert s.
  induction p as [|c p IH]; intros s.
  - split; [intros _; now exists s|intros _; now destruct s].
  - destruct s as [|d s]; simpl.
    + split; [discriminate|intros [rest H]; discriminate].
    + destruct (ascii_dec c d) as [->|Hne].
      * rewrite IH. split; intros [rest H]; exists rest.
        -- now rewrite H.
        -- now injection H.
      * split; [discriminate|].
        intros [rest H]. injection H as H1 H2. now elim Hne.
Qed.

Lemma substring_all (s : string) : substring 0 (String.length s) s = s.
Proof. induction s as [|c s IH]; simpl; [reflexivity|now rewrite IH]. Qed.

Lemma substring_skip (front s : string) :
  substring (String.length front) (String.length s) (front ++ s) = s.
Proof.
  induction front as [|c front IH]; simpl.
  - apply substring_all.
  - exact IH.
Qed.

Lemma substring_split (s : string) (n : nat) :
  (n <= String.length s)%nat ->
  s = (substring 0 n s ++ substring n (String.length s - n) s)%string.
Proof.
  revert n. induction s as [|c s IH]; intros n Hn.
  - destruct n; [reflexivity|simpl in Hn; lia].
  - destruct n as [|n].
    + simpl. now rewrite substring_all.
    + simpl in Hn. simpl. f_equal. apply IH. lia.
Qed.

Lemma endsWith_spec (s p : string) :
  endsWith s p = true <-> exists front, s = (front ++ p)%string.
Proof.
  unfold endsWith. rewrite andb_true_iff, Nat.leb_le, String.eqb_eq.
  split.
  - intros [Hle Hsub].
    exists (substring 0 (String.length s - String.length p) s).
    assert (H := substring_split s (String.length s - String.length p)
                   ltac:(lia)).
    replace (String.length s - (String.length s - String.length p))%nat
      with (String.length p) in H by lia.
    now rewrite Hsub in H.
  - intros [front ->]. rewrite length_append. split; [lia|].
    replace (String.length front + String.length p - String.length p)%nat
      with (String.length front) by lia.
    apply substring_skip.
Qed.

Lemma startsWith_empty (s : string) : startsWith s "" = true.
Proof. apply startsWith_spec. now exists s. Qed.

Lemma endsWith_empty (s : string) : endsWith s "" = true.
Proof. apply endsWith_spec. exists s. now rewrite append_empty. Qed.

(** [matches] in terms of the two methods, whatever the truthiness. *)
Lemma matches_unfold (p s : option string) (a : string) :
  matches p s a =
  (match p with Some x => startsWith a x | None => true end)
  && (match s with Some x => endsWith a x | None => true end).
Proof.
  unfold matches.
  destruct p as [[|c p]|], s as [[|d s]|]; simpl truthy; cbv iota;
    rewrite ?startsWith_empty, ?endsWith_empty, ?negb_involutive;
    simpl; rewrite ?negb_involutive; reflexivity.
Qed.

(** A string all of whose characters satisfy [f] has only such
    prefixes and suffixes. *)
Lemma startsWith_all_chars (f : ascii -> bool) (s p : string) :
  all_chars f s = true -> startsWith s p = true -> all_chars f p = true.
Proof.
  intros Hs Hp. apply startsWith_spec in Hp as [rest ->].
  rewrite all_chars_append in Hs. now apply andb_true_iff in Hs.
Qed.

Lemma endsWith_all_chars (f : ascii -> bool) (s p : string) :
  all_chars f s = true -> endsWith s p = true -> all_chars f p = true.
Proof.
  intros Hs Hp. apply endsWith_spec in Hp as [front ->].
  rewrite all_chars_append in Hs. now apply andb_true_iff in Hs.
Qed.

End MatchFacts.

(** ** Facts about the digest *)

Module KeccakFacts.
Import Keccak.

Lemma sha3_256_length (msg : list byte) : List.length (sha3_256 msg) = 32%nat.
Proof. unfold sha3_256. now rewrite length_map, length_seq. Qed.

(** FIPS 202 test vectors: the empty message, "abc", and messages whose
    padding is one byte (135 bytes) and a whole block (136 bytes). *)
Example sha3_256_empty :
  App.bytesToHex (sha3_256 []) =
  "a7ffc6f8bf1ed76651c14756a061d662f580ff4de43b49fa82d80a4b80f8434a"%string.
Proof. vm_compute. reflexivity. Qed.

Example sha3_256_abc :
  App.bytesToHex (sha3_256 (list_byte_of_string "abc")) =
  "3a985da74fe225b2045c172d6bd390bd855f086e3e9d525b46bfe24511431532"%string.
Proof. vm_compute. reflexivity. Qed.

Example sha3_256_135 :
  App.bytesToHex (sha3_256 (repeat "a"%byte 135)) =
  "8094bb53c44cfb1e67b7c30447f9a1c33696d2463ecc1d9c92538913392843c9"%string.
Proof. vm_compute. reflexivity. Qed.

Example sha3_256_136 :
  App.bytesToHex (sha3_256 (repeat "a"%byte 136)) =
  "3fc5559f14db8e453a0a3091edbd2bc25e11528d81c66fa570a4efdcc2695ee1"%string.
Proof. vm_compute. reflexivity. Qed.

End KeccakFacts.

(** ** Facts about the worker loop *)

Module WorkerFacts.
Import App Spec JSNumberFacts HexFacts MatchFacts.

Lemma progress_events_app (a b : list Message) :
  progress_events (a ++ b) = progress_events a + progress_events b.
Proof.
  unfold progress_events. rewrite filter_app, length_app. lia.
Qed.

Lemma result_events_app (a b : list Message) :
  result_events (a ++ b) = result_events a + result_events b.
Proof.
  unfold result_events. rewrite filter_app, length_app. lia.
Qed.

Lemma progress_events_cons (m : Message) (l : list Message) :
  progress_events (m :: l)
  = (if is_progress m then 1 else 0) + progress_events l.
Proof. unfold progress_events. cbn [filter]. destruct (is_progress m); cbn [List.length]; lia. Qed.

Lemma result_events_cons (m : Message) (l : list Message) :
  result_events (m :: l)
  = (if is_result m then 1 else 0) + result_events l.
Proof. unfold result_events. cbn [filter]. destruct (is_result m); cbn [List.length]; lia. Qed.

Lemma progress_events_nonneg (l : list Message) : 0 <= progress_events l.
Proof. unfold progress_events. lia. Qed.

Lemma result_events_nonneg (l : list Message) : 0 <= result_events l.
Proof. unfold result_events. lia. Qed.

Lemma result_events_none (l : list Message) :
  (forall a k m, ~ In (Result a k m) l) -> result_events l = 0.
Proof.
  induction l as [|x l IH]; intros H; [reflexivity|].
  rewrite result_events_cons, IH.
  - destruct x as [n|a k m]; [reflexivity|].
    exfalso. apply (H a k m). now left.
  - intros a k m Hin. apply (H a k m). now right.
Qed.

Lemma map_snd_stamp (t : Z) (l : list Message) :
  map snd (map (pair t) l) = l.
Proof. induction l as [|x l IH]; cbn; [reflexivity|now rewrite IH]. Qed.

Section Worker.
Variable publicKey : list byte -> list byte.
Variable wd : WorkerData.

(** The loop body, split into what the counter decides and what the
    match decides. *)
Lemma iteration_eq (c : Z) (k : list byte) :
  iteration publicKey wd c k =
  (JSNumber.incr c,
   (if JSNumber.rem (JSNumber.incr c) 1000 =? 0 then [Progress 1000] else [])
   ++ (if matches (workerData_prefix wd) (workerData_suffix wd)
                  (search_address publicKey wd k)
       then [result_of publicKey wd k] else [])).
Proof.
  unfold iteration, result_of, search_address.
  destruct (workerData_multisig wd);
    match goal with |- context [matches ?p ?s ?a] => destruct (matches p s a) end;
    rewrite ?app_nil_r; reflexivity.
Qed.

Lemma iteration_progress (c : Z) (k : list byte) :
  0 <= c < 2 ^ 53 ->
  fst (iteration publicKey wd c k) = c + 1 /\
  progress_events (snd (iteration publicKey wd c k))
  = (c + 1) / 1000 - c / 1000.
Proof.
  intros Hc. rewrite iteration_eq. cbn [fst snd].
  rewrite incr_below by exact Hc. split; [reflexivity|].
  rewrite progress_events_app.
  assert (Hres : progress_events
            (if matches (workerData_prefix wd) (workerData_suffix wd)
                        (search_address publicKey wd k)
             then [result_of publicKey wd k] else []) = 0).
  { destruct (matches _ _ _); reflexivity. }
  rewrite Hres. unfold JSNumber.rem.
  rewrite Z.rem_mod_nonneg by lia.
  destruct (Z.eqb_spec ((c + 1) mod 1000) 0) as [H0|H0];
    unfold progress_events; cbn [filter is_progress List.length];
    clear Hres; Z.to_euclidean_division_equations; lia.
Qed.

Lemma generateKey_progress (keys : list (list byte)) (c : Z) :
  0 <= c -> c + Z.of_nat (List.length keys) <= 2 ^ 53 ->
  fst (generateKey publicKey wd c keys) = c + Z.of_nat (List.length keys) /\
  progress_events (snd (generateKey publicKey wd c keys))
  = (c + Z.of_nat (List.length keys)) / 1000 - c / 1000.
Proof.
  revert c. induction keys as [|k keys IH]; intros c H0 Hc.
  - cbn. split; [lia|]. replace (c + 0) with c by lia.
    unfold progress_events. cbn. lia.
  - cbn [List.length] in *. cbn [generateKey].
    destruct (iteration_progress c k ltac:(lia)) as [Hf Hp].
    destruct (iteration publicKey wd c k) as [c1 out] eqn:E.
    cbn [fst snd] in Hf, Hp. subst c1.
    destruct (IH (c + 1) ltac:(lia) ltac:(lia)) as [Hf' Hp'].
    destruct (generateKey publicKey wd (c + 1) keys) as [c2 out'].
    cbn [fst snd] in *. split; [lia|].
    rewrite progress_events_app, Hp, Hp'.
    replace (c + 1 + Z.of_nat (List.length keys))
      with (c + Z.of_nat (S (List.length keys))) by lia.
    lia.
Qed.

(** With the multisig flag set the two address fields of a result are
    one and the same string, the multisig address. *)
Lemma result_of_multisig (k : list byte) :
  workerData_multisig wd = true ->
  result_of publicKey wd k
  = Result (bytesToHex (createMultisigAccountAddress
                          (authKeyBytesVec publicKey k) 0))
           (bytesToHex k)
           (Some (bytesToHex (createMultisigAccountAddress
                                (authKeyBytesVec publicKey k) 0))).
Proof. intros H. unfold result_of, search_address. now rewrite H. Qed.

(** Whatever the counter, a message of the trace is a progress event
    of 1000 or the result of a generated key that matched. *)
Lemma generateKey_messages (keys : list (list byte)) (c : Z) (m : Message) :
  In m (snd (generateKey publicKey wd c keys)) ->
  m = Progress 1000 \/
  exists k, In k keys /\
            matches (workerData_prefix wd) (workerData_suffix wd)
                    (search_address publicKey wd k) = true /\
            m = result_of publicKey wd k.
Proof.
  revert c. induction keys as [|k keys IH]; intros c Hin.
  - destruct Hin.
  - cbn [generateKey] in Hin. rewrite iteration_eq in Hin.
    destruct (generateKey publicKey wd (JSNumber.incr c) keys)
      as [c2 out'] eqn:E.
    cbn [snd] in Hin. rewrite !in_app_iff in Hin.
    destruct Hin as [[Hin|Hin]|Hin].
    + destruct (_ =? 0); [|destruct Hin].
      destruct Hin as [<-|[]]. now left.
    + destruct (matches _ _ _) eqn:Hm; [|destruct Hin].
      destruct Hin as [<-|[]]. right. exists k. cbn. auto.
    + specialize (IH (JSNumber.incr c)). rewrite E in IH.
      destruct (IH Hin) as [->|(k' & Hk & Hm & ->)]; [now left|].
      right. exists k'. cbn. auto.
Qed.

(** The results of a trace, one per matching key. *)
Lemma generateKey_results (keys : list (list byte)) (c : Z) :
  result_events (snd (generateKey publicKey wd c keys))
  = Z.of_nat (List.length keys) - non_matching publicKey wd keys.
Proof.
  revert c. induction keys as [|k keys IH]; intros c.
  - reflexivity.
  - cbn [generateKey]. specialize (IH (JSNumber.incr c)).
    rewrite iteration_eq.
    destruct (generateKey publicKey wd (JSNumber.incr c) keys) as [c2 out'].
    cbn [snd] in *. rewrite !result_events_app, IH.
    unfold non_matching. cbn [filter]. rewrite iteration_eq. cbn [snd].
    rewrite existsb_app.
    assert (Hp : forall b : bool,
               result_events (if b then [Progress 1000] else []) = 0
               /\ existsb is_result (if b then [Progress 1000] else []) = false)
      by (intros []; split; reflexivity).
    destruct (Hp (JSNumber.rem (JSNumber.incr c) 1000 =? 0)) as [-> _].
    destruct (Hp (JSNumber.rem (JSNumber.incr 0) 1000 =? 0)) as [_ ->].
    destruct (matches _ _ _); unfold result_of, result_events;
      cbn [existsb is_result orb negb filter List.length]; lia.
Qed.

(** With neither a prefix nor a suffix every generation posts a
    result. *)
Lemma non_matching_unconstrained (keys : list (list byte)) :
  truthy (workerData_prefix wd) = false ->
  truthy (workerData_suffix wd) = false ->
  non_matching publicKey wd keys = 0.
Proof.
  intros Hp Hs. unfold non_matching.
  induction keys as [|k keys IH]; [reflexivity|].
  cbn [filter]. rewrite iteration_eq. cbn [snd].
  unfold matches at 1. rewrite Hp, Hs. cbn [andb negb].
  rewrite existsb_app. cbn [existsb result_of is_result].
  rewrite orb_true_r. cbn [negb]. exact IH.
Qed.

End Worker.

End WorkerFacts.

(** ** Facts about the coordinator *)

Module MainFacts.
Import App Spec JSNumberFacts WorkerFacts.

Ltac split5 := split; [|split; [|split; [|split]]].

Section Coordinator.
Variable args : CliArgs.
Variable startTime : Z.

Local Abbreviation step := (on_message args startTime).
Local Abbreviation run := (run args startTime).
Local Abbreviation handled := (handled args startTime).

Lemma run_exited (st : Main) (events : list (Z * Message)) :
  exitCode st <> None -> run st events = st.
Proof.
  intros H. destruct events as [|[now m] rest]; [reflexivity|].
  cbn. destruct (exitCode st); [reflexivity|congruence].
Qed.

Lemma run_cons (st : Main) (now : Z) (m : Message) (rest : list (Z * Message)) :
  exitCode st = None ->
  run st ((now, m) :: rest) = run (step st now m) rest.
Proof. intros H. cbn. now rewrite H. Qed.

Lemma handled_cons (st : Main) (now : Z) (m : Message) (rest : list (Z * Message)) :
  exitCode st = None ->
  handled st ((now, m) :: rest) = (now, m) :: handled (step st now m) rest.
Proof. intros H. cbn. now rewrite H. Qed.

Lemma handled_exited (st : Main) (events : list (Z * Message)) :
  exitCode st <> None -> handled st events = [].
Proof.
  intros H. destruct events as [|[now m] rest]; [reflexivity|].
  cbn. destruct (exitCode st); [reflexivity|congruence].
Qed.

Lemma run_app (st : Main) (events1 events2 : list (Z * Message)) :
  run st (events1 ++ events2) = run (run st events1) events2.
Proof.
  revert st. induction events1 as [|[now m] rest IH]; intros st.
  - reflexivity.
  - cbn [app]. destruct (exitCode st) eqn:E.
    + rewrite !(run_exited st) by congruence. reflexivity.
    + rewrite !run_cons by exact E. apply IH.
Qed.

(** The events handled are an initial segment of those that arrive. *)
Lemma handled_prefix (st : Main) (events : list (Z * Message)) :
  exists rest, events = handled st events ++ rest.
Proof.
  revert st. induction events as [|[now m] evs IH]; intros st.
  - now exists [].
  - destruct (exitCode st) eqn:E.
    + rewrite handled_exited by congruence. now eexists.
    + rewrite handled_cons by exact E.
      destruct (IH (step st now m)) as [rest Hrest].
      exists rest. cbn. now rewrite <- Hrest.
Qed.

(** What a progress event changes. *)
Lemma step_progress (st : Main) (now n : Z) :
  foundCount (step st now (Progress n)) = foundCount st /\
  exitCode (step st now (Progress n)) = exitCode st /\
  totalGenerated (step st now (Progress n))
  = JSNumber.add (totalGenerated st) n /\
  printed_results (stdout (step st now (Progress n)))
  = printed_results (stdout st) /\
  (forall x, In (OutTotal x) (stdout (step st now (Progress n))) ->
             In (OutTotal x) (stdout st)).
Proof.
  cbn [on_message]. destruct (1000 <=? now - lastUpdateTime st);
    cbn [foundCount exitCode totalGenerated stdout]; repeat split; auto.
  - unfold printed_results. rewrite filter_app, length_app. cbn. lia.
  - intros x Hin. apply in_app_iff in Hin as [Hin|[Hin|[]]];
      [exact Hin|discriminate].
Qed.

Lemma result_lines_printed (a k : string) (m : option string) :
  printed_results (result_lines a k m) = 1 /\
  forall x, ~ In (OutTotal x) (result_lines a k m).
Proof.
  unfold result_lines. destruct m as [[|c m]|]; split; try reflexivity;
    intros x Hin; cbn in Hin; intuition discriminate.
Qed.

(** What a result event changes. *)
Lemma step_result (st : Main) (now : Z) (a k : string) (m : option string) :
  let st' := step st now (Result a k m) in
  foundCount st' = JSNumber.incr (foundCount st) /\
  totalGenerated st' = totalGenerated st /\
  printed_results (stdout st') = printed_results (stdout st) + 1 /\
  (count args <= foundCount st' ->
     exitCode st' = Some 0 /\
     stdout st' = (stdout st ++ result_lines a k m) ++
                  [OutFinalRate (totalGenerated st') (now - startTime);
                   OutElapsed (now - startTime);
                   OutTotal (totalGenerated st')]) /\
  (foundCount st' < count args ->
     exitCode st' = exitCode st /\
     stdout st' = stdout st ++ result_lines a k m).
Proof.
  cbn zeta. cbn [on_message]. fold (result_lines a k m).
  destruct (result_lines_printed a k m) as [Hp _].
  destruct (Z.leb_spec (count args) (JSNumber.incr (foundCount st)));
    cbn [foundCount exitCode totalGenerated stdout]; repeat split;
    try lia; try (intros; reflexivity).
  - unfold printed_results in *.
    rewrite !filter_app, !length_app. cbn [filter is_private_key_line List.length].
    lia.
  - now rewrite app_assoc.
  - unfold printed_results in *. rewrite !filter_app, !length_app. lia.
Qed.

Lemma run_foundCount_mono (st : Main) (events : list (Z * Message)) :
  0 <= foundCount st <= 2 ^ 53 ->
  foundCount st <= foundCount (run st events) <= 2 ^ 53.
Proof.
  revert st. induction events as [|[now m] evs IH]; intros st H.
  - cbn. lia.
  - destruct (exitCode st) eqn:E.
    + rewrite run_exited by congruence. lia.
    + rewrite run_cons by exact E.
      specialize (IH (step st now m)).
      destruct m as [n|a k m].
      * destruct (step_progress st now n) as (Hf & _).
        rewrite Hf in IH. apply IH. exact H.
      * destruct (step_result st now a k m) as (Hf & _).
        rewrite Hf in IH. pose proof (incr_range _ H). lia.
Qed.

(** Results are counted one by one until the count is reached; the
    handler that reaches it prints the final statistics and exits. *)
Lemma run_found (events : list (Z * Message)) (st : Main) :
  exitCode st = None ->
  0 <= foundCount st < count args ->
  count args <= 2 ^ 53 ->
  foundCount (run st events)
  = Z.min (count args) (foundCount st + result_events (map snd events)) /\
  foundCount (run st events) - foundCount st
  = result_events (map snd (handled st events)) /\
  printed_results (stdout (run st events))
  = printed_results (stdout st) + (foundCount (run st events) - foundCount st) /\
  (foundCount st + result_events (map snd events) < count args ->
     exitCode (run st events) = None) /\
  (count args <= foundCount st + result_events (map snd events) ->
     exitCode (run st events) = Some 0 /\
     exists pre now,
       stdout (run st events)
       = pre ++ [OutFinalRate (totalGenerated (run st events)) (now - startTime);
                 OutElapsed (now - startTime);
                 OutTotal (totalGenerated (run st events))]).
Proof.
  revert st. induction events as [|[now m] evs IH]; intros st E Hf Hc.
  - cbn. split5; try lia. intros _. exact E.
  - rewrite run_cons, handled_cons by exact E.
    cbn [map snd]. rewrite !result_events_cons.
    pose proof (result_events_nonneg (map snd evs)) as Hr.
    destruct m as [n|a k m]; cbn [is_result].
    + destruct (step_progress st now n) as (H1 & H2 & _ & H4 & _).
      destruct (IH (step st now (Progress n))) as (I1 & I2 & I3 & I4 & I5);
        rewrite ?H1, ?H2; auto.
      rewrite H1 in *. rewrite H4 in I3.
      split5; auto; try lia;
        try (intros H; apply I4; lia); try (intros H; apply I5; lia).
    + destruct (step_result st now a k m) as (H1 & _ & H3 & H4 & H5).
      rewrite incr_below in H1 by lia.
      destruct (Z.le_gt_cases (count args) (foundCount st + 1)) as [Hle|Hgt].
      * destruct H4 as [H4 H6]; [lia|].
        rewrite run_exited by congruence.
        rewrite handled_exited by congruence.
        cbn [map]. unfold result_events at 2. cbn [filter List.length].
        split5; try lia.
        intros _. split; [exact H4|]. do 2 eexists. exact H6.
      * destruct H5 as [H5 H6]; [lia|].
        destruct (IH (step st now (Result a k m))) as (I1 & I2 & I3 & I4 & I5);
          try congruence; try lia.
        rewrite H1 in *.
        split5; auto; try lia;
          try (intros H; apply I4; lia); try (intros H; apply I5; lia).
Qed.

(** Progress events of 1000 add up exactly while the total stays
    within 2^53. *)
Lemma run_total (events : list (Z * Message)) (st : Main) :
  (forall now n, In (now, Progress n) events -> n = 1000) ->
  0 <= totalGenerated st ->
  totalGenerated st
    + 1000 * progress_events (map snd (handled st events)) <= 2 ^ 53 ->
  totalGenerated (run st events)
  = totalGenerated st + 1000 * progress_events (map snd (handled st events)).
Proof.
  revert st. induction events as [|[now m] evs IH]; intros st Hev H0 Hb.
  - cbn. unfold progress_events. cbn. lia.
  - destruct (exitCode st) eqn:E.
    + rewrite run_exited, handled_exited by congruence.
      unfold progress_events. cbn. lia.
    + rewrite run_cons by exact E. rewrite handled_cons in * by exact E.
      cbn [map snd] in *. rewrite progress_events_cons in *.
      pose proof (progress_events_nonneg
                    (map snd (handled (step st now m) evs))) as Hp.
      assert (Hev' : forall now n, In (now, Progress n) evs -> n = 1000)
        by (intros; eapply Hev; right; eassumption).
      destruct m as [n|a k m]; cbn [is_progress] in *.
      * destruct (step_progress st now n) as (_ & _ & H3 & _).
        assert (n = 1000) by (eapply Hev; left; reflexivity). subst n.
        rewrite add_exact in H3 by lia.
        rewrite IH; rewrite ?H3; auto; lia.
      * destruct (step_result st now a k m) as (_ & H2 & _).
        rewrite IH; rewrite ?H2; auto; lia.
Qed.

(** The total printed at the end is the final [totalGenerated]. *)
Lemma run_reported_total (events : list (Z * Message)) (st : Main) :
  exitCode st = None ->
  (forall x, ~ In (OutTotal x) (stdout st)) ->
  forall x, In (OutTotal x) (stdout (run st events)) ->
            x = totalGenerated (run st events).
Proof.
  revert st. induction events as [|[now m] evs IH]; intros st E Hno x Hin.
  - cbn in Hin. now apply Hno in Hin.
  - rewrite run_cons in * by exact E.
    destruct m as [n|a k m].
    + destruct (step_progress st now n) as (_ & H2 & _ & _ & H5).
      apply (IH (step st now (Progress n))); auto.
      * congruence.
      * intros y Hy. apply (Hno y). now apply H5.
    + destruct (step_result st now a k m) as (_ & _ & _ & H4 & H5).
      destruct (result_lines_printed a k m) as [_ Hl].
      destruct (Z.le_gt_cases (count args)
                  (foundCount (step st now (Result a k m)))) as [Hle|Hgt].
      * destruct (H4 Hle) as [Hx Hs].
        rewrite run_exited in * by congruence.
        rewrite Hs in Hin. rewrite !in_app_iff in Hin.
        destruct Hin as [[Hin|Hin]|Hin].
        -- now apply Hno in Hin.
        -- now apply Hl in Hin.
        -- cbn in Hin. destruct Hin as [Hin|[Hin|[Hin|[]]]];
             try discriminate. now injection Hin.
      * destruct (H5 Hgt) as [Hx Hs].
        apply (IH (step st now (Result a k m))); auto.
        -- congruence.
        -- intros y Hy. rewrite Hs in Hy. apply in_app_iff in Hy as [Hy|Hy].
           ++ now apply Hno in Hy.
           ++ now apply Hl in Hy.
Qed.

End Coordinator.

End MainFacts.

(** ** Facts about interleavings of worker traces *)

Module MergeFacts.
Import App Spec JSNumberFacts WorkerFacts MainFacts.

Lemma sumZ_app (a b : list Z) : sumZ (a ++ b) = sumZ a + sumZ b.
Proof.
  unfold sumZ. induction a as [|x a IH]; cbn [app fold_right]; [reflexivity|].
  rewrite IH. lia.
Qed.

Lemma merge_single {A : Type} (l : list A) : merge [l] l.
Proof.
  induction l as [|x l IH].
  - constructor. now repeat constructor.
  - exact (merge_take [] x l [] l IH).
Qed.

Lemma merge_progress (ls : list (list Message)) (l : list Message) :
  merge ls l -> progress_events l = sumZ (map progress_events ls).
Proof.
  induction 1 as [ls Hall|before x l after rest Hm IH].
  - induction Hall as [|l ls -> _ IH]; [reflexivity|].
    cbn. unfold sumZ in IH. rewrite <- IH. reflexivity.
  - rewrite progress_events_cons, IH.
    rewrite !map_app, !sumZ_app. cbn [map sumZ fold_right].
    rewrite progress_events_cons. lia.
Qed.

Lemma merge_In {A : Type} (ls : list (list A)) (l : list A) (x : A) :
  merge ls l -> In x l -> exists li, In li ls /\ In x li.
Proof.
  induction 1 as [ls Hall|before y l after rest Hm IH]; intros Hin.
  - destruct Hin.
  - destruct Hin as [->|Hin].
    + exists (x :: l). split; [|now left].
      apply in_app_iff. right. now left.
    + destruct (IH Hin) as (li & Hli & Hx).
      apply in_app_iff in Hli as [Hli|[<-|Hli]].
      * exists li. split; [|exact Hx]. apply in_app_iff. now left.
      * exists (y :: l). split; [|now right].
        apply in_app_iff. right. now left.
      * exists li. split; [|exact Hx]. apply in_app_iff. right. now right.
Qed.

Lemma attempts_bound (keyss : list (list (list byte))) (keys : list (list byte)) :
  In keys keyss -> Z.of_nat (List.length keys) <= attempts keyss.
Proof.
  unfold attempts. induction keyss as [|k keyss IH]; intros Hin; [destruct Hin|].
  cbn [map sumZ fold_right].
  assert (0 <= sumZ (map (fun keys => Z.of_nat (List.length keys)) keyss)).
  { clear. induction keyss as [|k keyss IH]; cbn; [lia|]. unfold sumZ in IH. lia. }
  unfold sumZ in *. destruct Hin as [->|Hin]; [lia|]. specialize (IH Hin). lia.
Qed.

Lemma whole_batches_le (keyss : list (list (list byte))) :
  0 <= whole_batches keyss <= attempts keyss.
Proof.
  unfold whole_batches, attempts, sumZ.
  induction keyss as [|k keyss IH]; cbn [map fold_right]; [lia|].
  pose proof (Z.mul_div_le (Z.of_nat (List.length k)) 1000 ltac:(lia)).
  pose proof (Z.div_pos (Z.of_nat (List.length k)) 1000 ltac:(lia) ltac:(lia)).
  lia.
Qed.

Lemma handled_progress_le (args : CliArgs) (startTime : Z) (st : Main)
    (events : list (Z * Message)) :
  progress_events (map snd (handled args startTime st events))
  <= progress_events (map snd events).
Proof.
  destruct (handled_prefix args startTime st events) as [rest Hrest].
  rewrite Hrest at 2. rewrite map_app, progress_events_app.
  pose proof (progress_events_nonneg (map snd rest)). lia.
Qed.

Section Workers.
Variable publicKey : list byte -> list byte.
Variable wd : WorkerData.

(** Together the workers report their whole batches of 1000. *)
Lemma workers_progress (keyss : list (list (list byte))) :
  attempts keyss <= 2 ^ 53 ->
  1000 * sumZ (map progress_events (map (worker publicKey wd) keyss))
  = whole_batches keyss.
Proof.
  intros Hb.
  assert (Hall : forall keys, In keys keyss ->
                   Z.of_nat (List.length keys) <= 2 ^ 53).
  { intros keys Hin. pose proof (attempts_bound keyss keys Hin). lia. }
  clear Hb. unfold whole_batches.
  induction keyss as [|keys keyss IH]; [reflexivity|].
  cbn [map sumZ fold_right]. unfold sumZ in IH.
  rewrite Z.mul_add_distr_l, IH by (intros; apply Hall; now right).
  unfold worker.
  destruct (generateKey_progress publicKey wd keys 0) as [_ Hp];
    [lia|apply Hall; now left|].
  rewrite Hp, Z.add_0_l, Z.div_0_l, Z.sub_0_r by lia. reflexivity.
Qed.

Lemma workers_progress_1000 (keyss : list (list (list byte)))
    (l : list Message) (n : Z) :
  merge (map (worker publicKey wd) keyss) l -> In (Progress n) l -> n = 1000.
Proof.
  intros Hm Hin. destruct (merge_In _ _ _ Hm Hin) as (li & Hli & Hx).
  apply in_map_iff in Hli as (keys & <- & _).
  unfold worker in Hx.
  apply generateKey_messages in Hx as [Hx|(k & _ & _ & Hx)].
  - now injection Hx.
  - discriminate.
Qed.

End Workers.

End MergeFacts.

(** ** Facts about the estimate *)

Module EstimateFacts.
Import App.

Lemma pow16_positive (n : nat) : (0 < inject_Z (16 ^ Z.of_nat n))%Q.
Proof.
  change 0%Q with (inject_Z 0). rewrite <- Zlt_Qlt.
  apply Z.pow_pos_nonneg; lia.
Qed.

Lemma Qceiling_unique (x : Q) (z : Z) :
  (inject_Z (z - 1) < x)%Q -> (x <= inject_Z z)%Q -> Qceiling x = z.
Proof.
  intros Hlo Hhi.
  pose proof (Qle_ceiling x) as H1. pose proof (Qceiling_lt x) as H2.
  assert (Ha : (inject_Z (Qceiling x - 1) < inject_Z z)%Q)
    by (eapply Qlt_le_trans; eassumption).
  assert (Hb : (inject_Z (z - 1) < inject_Z (Qceiling x))%Q)
    by (eapply Qlt_le_trans; eassumption).
  rewrite <- Zlt_Qlt in Ha, Hb. lia.
Qed.

(** Below 16^256 the probability is not zero and the quotient is the
    product with the power of 16. *)
Lemma attemptsNeeded_finite (L : Q) (n : nat) :
  (n < 256)%nat ->
  attemptsNeeded L n
  = Num (Qceiling (L / Qpower (inject_Z 16) (- Z.of_nat n))).
Proof.
  intros Hn. unfold attemptsNeeded, probabilityPerTry, pow16.
  destruct (Nat.ltb_spec n 256) as [_|]; [|lia].
  pose proof (pow16_positive n) as Hpos.
  destruct (Qeq_bool (/ inject_Z (16 ^ Z.of_nat n)) (inject_Z 0)) eqn:E.
  - apply Qeq_bool_iff in E.
    pose proof (Qinv_lt_0_compat _ Hpos) as Hinv.
    rewrite E in Hinv. now apply Qlt_irrefl in Hinv.
  - f_equal. apply Qceiling_comp.
    rewrite Qpower_opp, <- Zpower_Qpower by lia. reflexivity.
Qed.

(** Four hex characters: 65536 times a value between 2.995728 and
    2.995742 rounds up to 196329. *)
Lemma attemptsNeeded_4 (L : Q) :
  (2995728 # 1000000 <= L)%Q -> (L <= 2995742 # 1000000)%Q ->
  attemptsNeeded L 4 = Num 196329.
Proof.
  intros Hlo Hhi. unfold attemptsNeeded, probabilityPerTry, pow16.
  cbn [Nat.ltb Nat.leb]. change (inject_Z (16 ^ Z.of_nat 4)) with (65536 # 1).
  change (Qeq_bool (/ (65536 # 1)) (inject_Z 0)) with false. cbv iota.
  f_equal. apply Qceiling_unique.
  - change (/ (65536 # 1))%Q with (1 # 65536). unfold Qdiv.
    change (/ (1 # 65536))%Q with (65536 # 1).
    change (inject_Z (196329 - 1)) with (196328 # 1). lra.
  - change (/ (65536 # 1))%Q with (1 # 65536). unfold Qdiv.
    change (/ (1 # 65536))%Q with (65536 # 1).
    change (inject_Z 196329) with (196329 # 1). lra.
Qed.

End EstimateFacts.

(** ** Facts about the hex string of a number and the bytes decoded
       from it *)

Module NonceFacts.
Import Hex App Spec Vocabulary HexFacts.

Lemma hex_string_unfold (n : N) :
  hex_string n = digits16 (S (N.to_nat (N.log2 n))) n EmptyString.
Proof.
  unfold hex_string, toString16.
  rewrite Z.abs_eq by lia. rewrite N2Z.id.
  destruct (Z.ltb_spec (Z.of_N n) 0); [lia|reflexivity].
Qed.

Lemma digits16_acc (f : nat) (n : N) (acc : string) :
  digits16 f n acc = (digits16 f n EmptyString ++ acc)%string.
Proof.
  revert n acc. induction f as [|k IH]; intros n acc; [reflexivity|].
  cbn [digits16]. destruct (n <? 16)%N; [reflexivity|].
  rewrite (IH _ (String _ acc)), (IH _ (String _ EmptyString)).
  now rewrite append_assoc.
Qed.

Lemma digits16_fuel (f f' : nat) (n : N) (acc : string) :
  f <> O -> (f <= f')%nat -> (n < 16 ^ N.of_nat f)%N ->
  digits16 f n acc = digits16 f' n acc.
Proof.
  revert f' n acc. induction f as [|k IH]; intros f' n acc Hne Hle Hn;
    [congruence|].
  destruct f' as [|k']; [lia|]. cbn [digits16].
  destruct (N.ltb_spec n 16) as [|Hge]; [reflexivity|].
  rewrite Nat2N.inj_succ, N.pow_succ_r' in Hn.
  apply IH.
  - intros ->. cbn in Hn. lia.
  - lia.
  - apply N.Div0.div_lt_upper_bound. exact Hn.
Qed.

Lemma below_pow_log2 (b n : N) :
  (2 <= b)%N -> (n < b ^ N.succ (N.log2 n))%N.
Proof.
  intros Hb.
  apply N.lt_le_trans with (2 ^ N.succ (N.log2 n))%N.
  - destruct (N.eq_dec n 0) as [->|Hn]; [reflexivity|].
    apply N.log2_spec. lia.
  - now apply N.pow_le_mono_l.
Qed.

Lemma hex_string_small (n : N) :
  (n < 16)%N -> hex_string n = String (digit n) EmptyString.
Proof.
  intros Hn. rewrite hex_string_unfold. cbn [digits16].
  destruct (N.ltb_spec n 16); [|lia]. now rewrite N.mod_small.
Qed.

Lemma hex_string_step (n : N) :
  (16 <= n)%N ->
  hex_string n
  = (hex_string (n / 16) ++ String (digit (n mod 16)) EmptyString)%string.
Proof.
  intros Hn. rewrite (hex_string_unfold n). cbn [digits16].
  destruct (N.ltb_spec n 16); [lia|].
  rewrite digits16_acc. f_equal. rewrite hex_string_unfold. symmetry.
  assert (Hlog : N.log2 (n / 16) = (N.log2 n - 4)%N).
  { change 16%N with (2 ^ 4)%N. now rewrite <- N.shiftr_div_pow2, N.log2_shiftr. }
  assert (H4 : (4 <= N.log2 n)%N).
  { change 4%N with (N.log2 16). now apply N.log2_le_mono. }
  apply digits16_fuel.
  - discriminate.
  - rewrite Hlog. lia.
  - rewrite Nat2N.inj_succ, N2Nat.id. apply below_pow_log2. lia.
Qed.

Lemma big_endian_acc_app (f : nat) (n : N) (acc : list byte) :
  big_endian_acc f n acc = big_endian_acc f n [] ++ acc.
Proof.
  revert n acc. induction f as [|k IH]; intros n acc; [reflexivity|].
  cbn [big_endian_acc]. destruct (n =? 0)%N; [reflexivity|].
  rewrite (IH _ (_ :: acc)), (IH _ [_]).
  now rewrite <- app_assoc.
Qed.

Lemma big_endian_acc_fuel (f f' : nat) (n : N) (acc : list byte) :
  (n < 256 ^ N.of_nat f)%N -> (n < 256 ^ N.of_nat f')%N ->
  big_endian_acc f n acc = big_endian_acc f' n acc.
Proof.
  revert f' n acc. induction f as [|k IH]; intros f' n acc Hn Hn'.
  - cbn in Hn. assert (n = 0%N) as -> by lia. now destruct f'.
  - destruct f' as [|k'].
    + cbn in Hn'. assert (n = 0%N) as -> by lia. reflexivity.
    + cbn [big_endian_acc]. destruct (n =? 0)%N; [reflexivity|].
      rewrite Nat2N.inj_succ, N.pow_succ_r' in Hn, Hn'.
      apply IH; now apply N.Div0.div_lt_upper_bound.
Qed.

Lemma minimal_big_endian_step (n : N) :
  (0 < n)%N ->
  minimal_big_endian n
  = minimal_big_endian (n / 256) ++ [Keccak.byte_of_Z (Z.of_N (n mod 256))].
Proof.
  intros Hn. unfold minimal_big_endian at 1. cbn [big_endian_acc].
  destruct (N.eqb_spec n 0); [lia|].
  rewrite big_endian_acc_app. f_equal. unfold minimal_big_endian.
  apply big_endian_acc_fuel.
  - apply N.Div0.div_lt_upper_bound.
    rewrite <- N.pow_succ_r', N2Nat.id. apply below_pow_log2. lia.
  - rewrite Nat2N.inj_succ, N2Nat.id. apply below_pow_log2. lia.
Qed.

Lemma byte_hex_digits (b : byte) :
  byte_hex b
  = String (digit (Byte.to_N b / 16))
           (String (digit (Byte.to_N b mod 16)) EmptyString).
Proof. destruct b; reflexivity. Qed.

Lemma to_N_byte_of_Z (r : N) :
  (r < 256)%N -> Byte.to_N (Keccak.byte_of_Z (Z.of_N r)) = r.
Proof.
  intros Hr. unfold Keccak.byte_of_Z.
  change 255 with (Z.ones 8). rewrite Z.land_ones by lia.
  rewrite Z.mod_small by lia. rewrite N2Z.id.
  destruct (Byte.of_N r) as [b|] eqn:E.
  - now apply Byte.to_of_N.
  - pose proof (Byte.to_of_N_option_map r) as H. rewrite E in H.
    destruct (N.leb_spec r 255); [discriminate|lia].
Qed.

Lemma bytesToHex_snoc (l : list byte) (b : byte) :
  bytesToHex (l ++ [b]) = (bytesToHex l ++ byte_hex b)%string.
Proof.
  induction l as [|x l IH].
  - cbn [app]. rewrite bytesToHex_cons, bytesToHex_nil. now rewrite append_empty.
  - cbn [app]. rewrite !bytesToHex_cons, IH. now rewrite append_assoc.
Qed.

Lemma decode_bytesToHex_prefix (l : list byte) (s : string) :
  Buffer_from_hex (bytesToHex l ++ s) = l ++ Buffer_from_hex s.
Proof.
  induction l as [|x l IH]; [reflexivity|].
  rewrite bytesToHex_cons, append_assoc, byte_hex_decode, IH. reflexivity.
Qed.

(** The hex string of [n] is the rendering of its big-endian bytes when
    it has an even number of digits, and otherwise that of the bytes of
    [n / 16] followed by the last digit. *)
Lemma hex_string_cases (n : N) :
  (Nat.even (String.length (hex_string n)) = true ->
   hex_string n = bytesToHex (minimal_big_endian n)) /\
  (Nat.even (String.length (hex_string n)) = false ->
   hex_string n
   = (bytesToHex (minimal_big_endian (n / 16))
      ++ String (digit (n mod 16)) EmptyString)%string).
Proof.
  induction (N.lt_wf_0 n) as [n _ IH].
  destruct (N.lt_ge_cases n 16) as [Hlt|Hge].
  - rewrite hex_string_small by exact Hlt. cbn [String.length Nat.even].
    split; [discriminate|]. intros _.
    rewrite N.div_small, N.mod_small by exact Hlt. reflexivity.
  - rewrite hex_string_step by exact Hge.
    rewrite length_append. cbn [String.length].
    replace (String.length (hex_string (n / 16)) + 1)%nat
      with (S (String.length (hex_string (n / 16)))) by lia.
    rewrite Nat.even_succ, <- Nat.negb_even.
    destruct (IH (n / 16)%N) as [IHeven IHodd].
    { apply N.div_lt; lia. }
    destruct (Nat.even (String.length (hex_string (n / 16)))); cbn [negb];
      split; try discriminate; intros _.
    + now rewrite IHeven.
    + rewrite IHodd by reflexivity.
      rewrite (minimal_big_endian_step n) by lia.
      rewrite bytesToHex_snoc, byte_hex_digits, to_N_byte_of_Z
        by (apply N.mod_lt; discriminate).
      rewrite N.Div0.div_div. change (16 * 16)%N with 256%N.
      rewrite append_assoc. cbn [append].
      replace (n mod 256 / 16)%N with (n / 16 mod 16)%N.
      2:{ change 256%N with (16 * 16)%N.
          rewrite N.Div0.mod_mul_r, N.mul_comm, N.div_add by discriminate.
          rewrite (N.div_small (n mod 16)) by (apply N.mod_lt; discriminate).
          now rewrite N.add_0_l. }
      replace (n mod 256 mod 16)%N with (n mod 16)%N.
      2:{ change 256%N with (16 * 16)%N.
          rewrite N.Div0.mod_mul_r, N.mul_comm, N.Div0.mod_add.
          now rewrite N.Div0.mod_mod. }
      reflexivity.
Qed.

(** The bytes [Buffer.from(n.toString(16), 'hex')] yields for [n >= 0]. *)
Lemma nonce_bytes (n : N) :
  Buffer_from_hex (hex_string n)
  = minimal_big_endian
      (if Nat.even (String.length (hex_string n)) then n else (n / 16)%N).
Proof.
  destruct (hex_string_cases n) as [He Ho].
  destruct (Nat.even (String.length (hex_string n))).
  - rewrite He by reflexivity. apply Buffer_from_hex_bytesToHex.
  - rewrite Ho by reflexivity. rewrite decode_bytesToHex_prefix.
    cbn [Buffer_from_hex]. now rewrite app_nil_r.
Qed.

(** A negative number is written with a minus sign, where decoding
    stops at once. *)
Lemma negative_nonce_bytes (p : positive) :
  Buffer_from_hex (toString16 (Z.neg p)) = [].
Proof.
  unfold toString16. change (Z.neg p <? 0) with true. cbv iota.
  destruct (digits16 _ _ _); reflexivity.
Qed.

End NonceFacts.

(** * The claims *)

Import App Spec.
Import JSNumberFacts HexFacts MatchFacts KeccakFacts WorkerFacts MainFacts
       MergeFacts EstimateFacts.

(** C1.  With the multisig flag set, the result message is meant to carry
    the standard address in [address] and the multisig address in
    [multisigAddress].  It does not: for the all-zero key, whose standard
    address is 08e8...27cb, the worker posts the multisig address
    57df...0993 in both fields, the standard address is not sent at all,
    and the coordinator prints the multisig address on the line labelled
    "Standard account address" as well. *)
Theorem C1_multisig_result_repeats_multisig_address :
  let args := {| prefix := None; suffix := None; multisig := true;
                 count := 1; threads := 1 |} in
  let standard :=
    "08e845d10bbb594fcffceb36d934a188bb84d9cdf7362e4e2522265b185127cb"%string in
  let multisigAddress :=
    "57dfef913b458934c3c85389d813bc2d961e03d1a29a5a09f7d1ce7bdebc0993"%string in
  let privateKey :=
    "0000000000000000000000000000000000000000000000000000000000000000"%string in
  bytesToHex (authKeyBytesVec sample_publicKey zero_key) = standard /\
  worker sample_publicKey (workerData args) [zero_key]
  = [Result multisigAddress privateKey (Some multisigAddress)] /\
  standard <> multisigAddress /\
  stdout (main args 0 [(1, Result multisigAddress privateKey (Some multisigAddress))])
  = [OutNewline; OutMultisig multisigAddress; OutStandard multisigAddress;
     OutPrivateKey privateKey;
     OutFinalRate 0 1; OutElapsed 1; OutTotal 0].
Proof.
  cbv zeta. split; [|split; [|split]].
  - vm_compute. reflexivity.
  - vm_compute. reflexivity.
  - discriminate.
  - vm_compute. reflexivity.
Qed.

(** C2 (amended).  The counter behind the progress events counts every
    generation, matching or not: a worker that has made [n] attempts
    (results plus non-matching generations) has posted [n / 1000]
    progress events, each with count 1000. *)
Theorem C2_progress_counts_every_attempt
    (publicKey : list byte -> list byte) (wd : WorkerData)
    (keys : list (list byte)) :
  Z.of_nat (List.length keys) <= 2 ^ 53 ->
  progress_events (worker publicKey wd keys) = Z.of_nat (List.length keys) / 1000 /\
  progress_events (worker publicKey wd keys)
  = (result_events (worker publicKey wd keys) + non_matching publicKey wd keys) / 1000 /\
  (forall n, In (Progress n) (worker publicKey wd keys) -> n = 1000).
Proof.
  intros Hlen. unfold worker.
  destruct (generateKey_progress publicKey wd keys 0 ltac:(lia) ltac:(lia))
    as [_ Hp].
  rewrite Z.add_0_l, Z.div_0_l, Z.sub_0_r in Hp by lia.
  split; [exact Hp|split].
  - rewrite generateKey_results, Hp. f_equal. lia.
  - intros n Hin. apply generateKey_messages in Hin as [H|(k & _ & _ & H)].
    + now injection H.
    + discriminate.
Qed.

Lemma C2_witness :
  Z.of_nat (List.length (repeat zero_key 2500)) <= 2 ^ 53 /\
  progress_events
    (worker sample_publicKey
       {| workerData_prefix := Some "ab"%string; workerData_suffix := None;
          workerData_multisig := false |}
       (repeat zero_key 2500))
  = Z.of_nat (List.length (repeat zero_key 2500)) / 1000.
Proof.
  split; [vm_compute; discriminate|].
  refine (proj1 (C2_progress_counts_every_attempt
                   sample_publicKey
                   {| workerData_prefix := Some "ab"%string;
                      workerData_suffix := None;
                      workerData_multisig := false |}
                   (repeat zero_key 2500) _)).
  vm_compute. discriminate.
Defined.

(** C2, as stated, fails: with neither prefix nor suffix every one of the
    first 1000 generations matches, so there is no non-matching
    generation at all, and yet one progress event is posted. *)
Lemma C2_counterexample :
  let wd := {| workerData_prefix := None; workerData_suffix := None;
               workerData_multisig := false |} in
  let keys := repeat zero_key 1000 in
  non_matching sample_publicKey wd keys = 0 /\
  result_events (worker sample_publicKey wd keys) = 1000 /\
  progress_events (worker sample_publicKey wd keys) = 1.
Proof.
  cbv zeta.
  assert (Hn : non_matching sample_publicKey
                 {| workerData_prefix := None; workerData_suffix := None;
                    workerData_multisig := false |} (repeat zero_key 1000) = 0)
    by (apply non_matching_unconstrained; reflexivity).
  split; [exact Hn|]. unfold worker. split.
  - rewrite generateKey_results, Hn, repeat_length. reflexivity.
  - destruct (generateKey_progress sample_publicKey
                {| workerData_prefix := None; workerData_suffix := None;
                   workerData_multisig := false |} (repeat zero_key 1000) 0)
      as [_ Hp]; [lia|rewrite repeat_length; vm_compute; discriminate|].
    rewrite Hp, repeat_length. reflexivity.
Qed.




(** C4.  The standard address of a key is the whole SHA3-256 digest of
    its public key followed by the scheme byte 0x00: a function of the
    public key bytes, 32 bytes long, 64 hex characters when rendered. *)
Theorem C4_standard_address
    (publicKey : list byte -> list byte) (privateKey : list byte) :
  authKeyBytesVec publicKey privateKey
  = Keccak.sha3_256 (publicKey privateKey ++ [x00]) /\
  List.length (authKeyBytesVec publicKey privateKey) = 32%nat /\
  String.length (bytesToHex (authKeyBytesVec publicKey privateKey)) = 64%nat /\
  (forall publicKey' privateKey',
      publicKey' privateKey' = publicKey privateKey ->
      authKeyBytesVec publicKey' privateKey' = authKeyBytesVec publicKey privateKey).
Proof.
  split; [reflexivity|split; [|split]].
  - apply sha3_256_length.
  - rewrite bytesToHex_length. unfold authKeyBytesVec.
    now rewrite sha3_256_length.
  - intros pk' sk' H. unfold authKeyBytesVec. now rewrite H.
Qed.

(** C5.  An iteration goes on to post a result iff (no prefix is given or
    the address starts with it) and (no suffix is given or the address
    ends with it); an empty prefix or suffix acts as one not given, and
    with neither given every address passes. *)
Theorem C5_match_predicate (address : string) (prefix suffix : option string) :
  (matches prefix suffix address = true <->
   (prefix = None \/ exists p, prefix = Some p /\ Hex.startsWith address p = true) /\
   (suffix = None \/ exists s, suffix = Some s /\ Hex.endsWith address s = true)) /\
  matches (Some ""%string) suffix address = matches None suffix address /\
  matches prefix (Some ""%string) address = matches prefix None address /\
  matches None None address = true.
Proof.
  split; [|split; [|split]].
  - assert (Hopt : forall (o : option string) (f : string -> bool),
               match o with Some x => f x | None => true end = true <->
               (o = None \/ exists x, o = Some x /\ f x = true)).
    { intros [x|] f; split.
      - intros H. right. now exists x.
      - intros [H|(y & H & Hy)]; [discriminate|]. now injection H as ->.
      - intros _. now left.
      - reflexivity. }
    rewrite matches_unfold, andb_true_iff.
    now rewrite (Hopt prefix (Hex.startsWith address)),
                (Hopt suffix (Hex.endsWith address)).
  - rewrite !matches_unfold. now rewrite startsWith_empty.
  - rewrite !matches_unfold. now rewrite endsWith_empty.
  - reflexivity.
Qed.

(** C6 (amended).  [calculateEstimate] returns the "instant" sentinel
    exactly when neither a prefix nor a suffix is given (an empty string
    counting as not given); otherwise, for fewer than 256 characters in
    all, [attemptsNeeded] is the ceiling of [-ln(0.05) / 16^-matchLength],
    the logarithm being the double the runtime computes.  For a prefix of
    four characters and no suffix that is 196329 (not about 191481),
    whenever that double lies between 2.995728 and 2.995742. *)
Theorem C6_estimate (L : Q) (prefix suffix : option string) :
  (2995728 # 1000000 <= L)%Q -> (L <= 2995742 # 1000000)%Q ->
  (calculateEstimate L prefix suffix = ShouldBeInstant <->
   (prefix = None \/ prefix = Some ""%string) /\
   (suffix = None \/ suffix = Some ""%string)) /\
  ((strlen prefix + strlen suffix < 256)%nat ->
   calculateEstimate L prefix suffix <> ShouldBeInstant ->
   calculateEstimate L prefix suffix
   = FormattedDuration
       (Num (Qceiling
               (L / Qpower (inject_Z 16)
                           (- Z.of_nat (strlen prefix + strlen suffix)))))) /\
  (forall p, String.length p = 4%nat ->
             calculateEstimate L (Some p) None = FormattedDuration (Num 196329)).
Proof.
  intros Hlo Hhi.
  assert (Htruthy : forall o, truthy o = false <-> o = None \/ o = Some ""%string).
  { intros [[|c t]|]; cbn; split; intros H; try discriminate; auto;
      destruct H; discriminate. }
  split; [|split].
  - unfold calculateEstimate. rewrite <- !Htruthy.
    destruct (truthy prefix), (truthy suffix); cbn;
      split; try tauto; try discriminate; intros [H1 H2]; discriminate.
  - intros Hlen Hne. unfold calculateEstimate in *.
    destruct (negb (truthy prefix) && negb (truthy suffix)); [congruence|].
    now rewrite attemptsNeeded_finite.
  - intros p Hp. unfold calculateEstimate.
    destruct p as [|c p]; [discriminate|]. cbn [truthy negb andb].
    cbn [strlen]. rewrite Hp. cbn [Nat.add].
    now rewrite attemptsNeeded_4.
Qed.

Lemma C6_witness :
  (2995728 # 1000000 <= neg_log_005_double)%Q /\
  (neg_log_005_double <= 2995742 # 1000000)%Q /\
  calculateEstimate neg_log_005_double (Some "abcd"%string) None
  = FormattedDuration (Num 196329).
Proof.
  assert (Hlo : (2995728 # 1000000 <= neg_log_005_double)%Q)
    by (vm_compute; discriminate).
  assert (Hhi : (neg_log_005_double <= 2995742 # 1000000)%Q)
    by (vm_compute; discriminate).
  split; [exact Hlo|split; [exact Hhi|]].
  exact (proj2 (proj2 (C6_estimate neg_log_005_double None None Hlo Hhi))
               "abcd"%string eq_refl).
Defined.

(** C6, as stated, fails on its figure: for the prefix "abcd" and no
    suffix the attempts computed are 196329, 4848 more than 191481. *)
Lemma C6_counterexample :
  exists n,
    calculateEstimate neg_log_005_double (Some "abcd"%string) None
    = FormattedDuration (Num n) /\
    n - 191481 = 4848.
Proof. exists 196329. split; vm_compute; reflexivity. Qed.

(** C7.  For a target count from 1 on (within the integers a double
    counts exactly), [foundCount] never decreases and is the number of
    result events handled; the process exits, with code 0 and the final
    statistics as its last lines, exactly when the results that have
    arrived reach the count, at which point [foundCount] equals it; the
    number of results printed is [foundCount] and never exceeds the
    count. *)
Theorem C7_found_count_and_exit
    (args : CliArgs) (startTime : Z) (events : list (Z * Message)) :
  1 <= count args <= 2 ^ 53 ->
  let st := main args startTime events in
  let arrived := result_events (map snd events) in
  (forall events1 events2,
      events = events1 ++ events2 ->
      foundCount (main args startTime events1) <= foundCount st) /\
  foundCount st
  = result_events (map snd (handled args startTime (initial startTime) events)) /\
  foundCount st = Z.min (count args) arrived /\
  (exitCode st = Some 0 <-> count args <= arrived) /\
  (exitCode st = None <-> arrived < count args) /\
  (exitCode st = Some 0 ->
   exists pre now,
     stdout st = pre ++ [OutFinalRate (totalGenerated st) (now - startTime);
                         OutElapsed (now - startTime);
                         OutTotal (totalGenerated st)]) /\
  printed_results (stdout st) = foundCount st /\
  printed_results (stdout st) <= count args.
Proof.
  intros Hc. cbv zeta. unfold main.
  destruct (run_found args startTime events (initial startTime))
    as (H1 & H2 & H3 & H4 & H5); [reflexivity|cbn; lia|lia|].
  cbn [initial foundCount stdout] in *.
  change (printed_results []) with 0 in H3.
  rewrite Z.add_0_l in *. rewrite Z.sub_0_r in *.
  pose proof (result_events_nonneg (map snd events)) as Hr.
  split; [|split; [|split; [|split; [|split; [|split; [|split]]]]]].
  - intros events1 events2 ->. rewrite run_app.
    apply run_foundCount_mono.
    pose proof (run_foundCount_mono args startTime (initial startTime) events1)
      as Hm.
    cbn [initial foundCount] in Hm. lia.
  - lia.
  - exact H1.
  - split.
    + intros He. destruct (Z.le_gt_cases (count args)
                             (result_events (map snd events))) as [|Hlt]; [assumption|].
      rewrite H4 in He by lia. discriminate.
    + intros Hle. now apply H5.
  - split.
    + intros He. destruct (Z.le_gt_cases (count args)
                             (result_events (map snd events))) as [Hle|]; [|lia].
      destruct (H5 Hle) as [He' _]. congruence.
    + intros Hlt. now apply H4.
  - intros He. apply H5.
    destruct (Z.le_gt_cases (count args)
                (result_events (map snd events))) as [|Hlt]; [assumption|].
    rewrite H4 in He by lia. discriminate.
  - lia.
  - lia.
Qed.

Lemma C7_witness :
  let args := {| prefix := Some "ab"%string; suffix := None; multisig := false;
                 count := 2; threads := 4 |} in
  let events := [(10, Progress 1000); (20, Result "ab01" "k1" None);
                 (1500, Progress 1000); (1600, Result "ab02" "k2" None);
                 (1700, Result "ab03" "k3" None)] in
  1 <= count args <= 2 ^ 53 /\
  (exitCode (main args 0 events) = Some 0 <->
   count args <= result_events (map snd events)) /\
  printed_results (stdout (main args 0 events)) = foundCount (main args 0 events).
Proof.
  cbv zeta.
  assert (Hc : 1 <= 2 <= 2 ^ 53) by (split; vm_compute; discriminate).
  split; [exact Hc|].
  pose proof (C7_found_count_and_exit
                {| prefix := Some "ab"%string; suffix := None; multisig := false;
                   count := 2; threads := 4 |} 0
                [(10, Progress 1000); (20, Result "ab01" "k1" None);
                 (1500, Progress 1000); (1600, Result "ab02" "k2" None);
                 (1700, Result "ab03" "k3" None)] Hc) as H.
  cbv zeta in H. split; [apply H|apply H].
Defined.

(** C8.  When the events are an interleaving of the traces of workers
    (their attempts together within 2^53), [totalGenerated] is 1000 times
    the number of progress events handled, hence a multiple of 1000; it
    never exceeds the whole batches of 1000 the workers completed, so the
    attempts of a worker past its last multiple of 1000 are in no total,
    and the total printed at exit is that same value. *)
Theorem C8_total_generated_whole_batches
    (publicKey : list byte -> list byte) (args : CliArgs) (startTime : Z)
    (keyss : list (list (list byte))) (events : list (Z * Message)) :
  merge (map (worker publicKey (workerData args)) keyss) (map snd events) ->
  attempts keyss <= 2 ^ 53 ->
  let st := main args startTime events in
  totalGenerated st
  = 1000 * progress_events
             (map snd (handled args startTime (initial startTime) events)) /\
  totalGenerated st mod 1000 = 0 /\
  1000 * progress_events (map snd events) = whole_batches keyss /\
  totalGenerated st <= whole_batches keyss /\
  whole_batches keyss <= attempts keyss /\
  (forall x, In (OutTotal x) (stdout st) -> x = totalGenerated st).
Proof.
  intros Hm Hb. cbv zeta. unfold main.
  assert (Hsum : 1000 * progress_events (map snd events) = whole_batches keyss).
  { rewrite (merge_progress _ _ Hm). now apply workers_progress. }
  pose proof (whole_batches_le keyss) as Hw.
  pose proof (handled_progress_le args startTime (initial startTime) events) as Hh.
  pose proof (progress_events_nonneg
                (map snd (handled args startTime (initial startTime) events))) as H0.
  assert (Ht : totalGenerated (run args startTime (initial startTime) events)
               = 1000 * progress_events
                          (map snd (handled args startTime (initial startTime) events))).
  { rewrite run_total; cbn [initial totalGenerated]; try lia.
    intros now n Hin.
    apply (workers_progress_1000 publicKey (workerData args) keyss (map snd events));
      [exact Hm|].
    change (Progress n) with (snd (now, Progress n)). now apply in_map. }
  split; [exact Ht|split; [|split; [exact Hsum|split; [lia|split; [lia|]]]]].
  - rewrite Ht, Z.mul_comm. apply Z.mod_mul. lia.
  - apply run_reported_total; [reflexivity|]. intros x [].
Qed.

Lemma C8_witness :
  let args := {| prefix := Some "ab"%string; suffix := None; multisig := false;
                 count := 1; threads := 1 |} in
  let keyss := [repeat zero_key 1500] in
  let events := map (pair 7) (worker sample_publicKey (workerData args)
                                     (repeat zero_key 1500)) in
  attempts keyss <= 2 ^ 53 /\
  totalGenerated (main args 0 events) <= whole_batches keyss /\
  whole_batches keyss = 1000.
Proof.
  cbv zeta.
  assert (Hb : attempts [repeat zero_key 1500] <= 2 ^ 53)
    by (vm_compute; discriminate).
  split; [exact Hb|]. split; [|vm_compute; reflexivity].
  refine (proj1 (proj2 (proj2 (proj2
            (C8_total_generated_whole_batches sample_publicKey
               {| prefix := Some "ab"%string; suffix := None; multisig := false;
                  count := 1; threads := 1 |} 0
               [repeat zero_key 1500] _ _ Hb))))).
  rewrite map_snd_stamp. apply merge_single.
Defined.

(** C9.  The configured prefix and suffix reach the workers unchanged,
    [bytesToHex] writes only the characters 0-9 and a-f, and the
    comparison is exact; so when the prefix or the suffix has a character
    outside that alphabet no address matches and no result is ever
    posted. *)
Theorem C9_pattern_outside_hex_never_matches
    (publicKey : list byte -> list byte) (args : CliArgs)
    (keys : list (list byte)) :
  outside_lower_hex (prefix args) || outside_lower_hex (suffix args) = true ->
  workerData_prefix (workerData args) = prefix args /\
  workerData_suffix (workerData args) = suffix args /\
  (forall bytes, lower_hex (bytesToHex bytes) = true) /\
  (forall bytes, matches (prefix args) (suffix args) (bytesToHex bytes) = false) /\
  (forall a k m, ~ In (Result a k m) (worker publicKey (workerData args) keys)) /\
  result_events (worker publicKey (workerData args) keys) = 0.
Proof.
  intros Hout.
  assert (Hno : forall bytes,
             matches (prefix args) (suffix args) (bytesToHex bytes) = false).
  { intros bytes. rewrite matches_unfold. apply andb_false_iff.
    pose proof (bytesToHex_lower bytes) as Hl.
    apply orb_true_iff in Hout as [Hp|Hs].
    - left. destruct (prefix args) as [p|]; [|discriminate].
      cbn in Hp. apply negb_true_iff in Hp.
      destruct (Hex.startsWith (bytesToHex bytes) p) eqn:E; [|reflexivity].
      apply (startsWith_all_chars _ _ _ Hl) in E.
      unfold lower_hex in Hp. congruence.
    - right. destruct (suffix args) as [s|]; [|discriminate].
      cbn in Hs. apply negb_true_iff in Hs.
      destruct (Hex.endsWith (bytesToHex bytes) s) eqn:E; [|reflexivity].
      apply (endsWith_all_chars _ _ _ Hl) in E.
      unfold lower_hex in Hs. congruence. }
  assert (Hres : forall a k m,
             ~ In (Result a k m) (worker publicKey (workerData args) keys)).
  { intros a k m Hin. unfold worker in Hin.
    apply generateKey_messages in Hin as [H|(sk & _ & Hm & _)]; [discriminate|].
    unfold search_address in Hm. cbn [workerData workerData_prefix workerData_suffix] in Hm.
    rewrite Hno in Hm. discriminate. }
  split; [reflexivity|split; [reflexivity|split; [exact bytesToHex_lower|]]].
  split; [exact Hno|split; [exact Hres|]].
  now apply result_events_none.
Qed.

Lemma C9_witness :
  let args := {| prefix := Some "AB"%string; suffix := None; multisig := false;
                 count := 1; threads := 1 |} in
  outside_lower_hex (prefix args) || outside_lower_hex (suffix args) = true /\
  result_events (worker sample_publicKey (workerData args) (repeat zero_key 50)) = 0.
Proof.
  cbv zeta. split; [reflexivity|].
  refine (proj2 (proj2 (proj2 (proj2 (proj2
            (C9_pattern_outside_hex_never_matches sample_publicKey
               {| prefix := Some "AB"%string; suffix := None; multisig := false;
                  count := 1; threads := 1 |}
               (repeat zero_key 50) _)))))).
  reflexivity.
Defined.

(** C10.  A result message agrees with its own private key: decoding its
    [privateKey] field gives the key bytes back, and its [address] is the
    hex rendering of the standard address of that key when multisig is
    off, and of the multisig address derived from that standard address
    with nonce 0 when multisig is on. *)
Theorem C10_result_coherent_with_private_key
    (publicKey : list byte -> list byte) (wd : WorkerData)
    (keys : list (list byte)) (a k : string) (m : option string) :
  In (Result a k m) (worker publicKey wd keys) ->
  let privateKey := Hex.Buffer_from_hex k in
  k = bytesToHex privateKey /\
  (workerData_multisig wd = false ->
   a = bytesToHex (authKeyBytesVec publicKey privateKey)) /\
  (workerData_multisig wd = true ->
   a = bytesToHex (createMultisigAccountAddress
                     (authKeyBytesVec publicKey privateKey) 0)).
Proof.
  intros Hin. cbv zeta. unfold worker in Hin.
  apply generateKey_messages in Hin as [H|(sk & _ & _ & H)]; [discriminate|].
  unfold result_of, search_address in H. injection H as Ha Hk _.
  subst k. rewrite Buffer_from_hex_bytesToHex.
  split; [reflexivity|split]; intros Hms; rewrite Hms in Ha; exact Ha.
Qed.

Lemma C10_witness :
  let wd := {| workerData_prefix := Some "57"%string; workerData_suffix := None;
               workerData_multisig := true |} in
  let a := "57dfef913b458934c3c85389d813bc2d961e03d1a29a5a09f7d1ce7bdebc0993"%string in
  let k := "0000000000000000000000000000000000000000000000000000000000000000"%string in
  In (Result a k (Some a)) (worker sample_publicKey wd [zero_key]) /\
  a = bytesToHex (createMultisigAccountAddress
                    (authKeyBytesVec sample_publicKey (Hex.Buffer_from_hex k)) 0).
Proof.
  cbv zeta.
  assert (Hin : In (Result
                      "57dfef913b458934c3c85389d813bc2d961e03d1a29a5a09f7d1ce7bdebc0993"
                      "0000000000000000000000000000000000000000000000000000000000000000"
                      (Some "57dfef913b458934c3c85389d813bc2d961e03d1a29a5a09f7d1ce7bdebc0993"%string))
                   (worker sample_publicKey
                      {| workerData_prefix := Some "57"%string;
                         workerData_suffix := None;
                         workerData_multisig := true |} [zero_key]))
    by (vm_compute; left; reflexivity).
  split; [exact Hin|].
  exact (proj2 (proj2 (C10_result_coherent_with_private_key _ _ _ _ _ _ Hin))
               eq_refl).
Defined.

(** * Further properties of the code *)

(** ** More facts about the worker loop *)

Module WorkerMore.
Import App Spec Vocabulary JSNumberFacts HexFacts MatchFacts KeccakFacts
       WorkerFacts.

Section Worker.
Variable publicKey : list byte -> list byte.
Variable wd : WorkerData.

Lemma search_address_length (k : list byte) :
  String.length (search_address publicKey wd k) = 64%nat.
Proof.
  unfold search_address. rewrite bytesToHex_length.
  destruct (workerData_multisig wd);
    unfold createMultisigAccountAddress, authKeyBytesVec;
    now rewrite sha3_256_length.
Qed.

Lemma filter_progress_part (b : bool) :
  filter is_result (if b then [Progress 1000] else []) = [].
Proof. now destruct b. Qed.

(** The results of a trace are those of the matching keys, in the order
    the keys were generated. *)
Lemma generateKey_result_list (keys : list (list byte)) (c : Z) :
  filter is_result (snd (generateKey publicKey wd c keys))
  = map (result_of publicKey wd) (filter (matching publicKey wd) keys).
Proof.
  revert c. induction keys as [|k keys IH]; intros c; [reflexivity|].
  cbn [generateKey]. rewrite iteration_eq.
  specialize (IH (JSNumber.incr c)).
  destruct (generateKey publicKey wd (JSNumber.incr c) keys) as [c2 out'].
  cbn [snd] in *. rewrite !filter_app, IH, filter_progress_part.
  cbn [filter app]. unfold matching at 2.
  destruct (matches _ _ _); reflexivity.
Qed.

(** From 2^53 on the counter no longer moves, and 2^53 is no multiple
    of 1000. *)
Lemma generateKey_saturated (keys : list (list byte)) :
  fst (generateKey publicKey wd (2 ^ 53) keys) = 2 ^ 53 /\
  progress_events (snd (generateKey publicKey wd (2 ^ 53) keys)) = 0.
Proof.
  induction keys as [|k keys [IHc IHp]]; [split; reflexivity|].
  cbn [generateKey]. rewrite iteration_eq. rewrite incr_top.
  change (JSNumber.rem (2 ^ 53) 1000 =? 0) with false. cbv iota.
  destruct (generateKey publicKey wd (2 ^ 53) keys) as [c2 out'].
  cbn [fst snd] in *. split; [exact IHc|].
  rewrite !progress_events_app, IHp.
  destruct (matches _ _ _); reflexivity.
Qed.

(** A result posted has a 64-character address that passed both tests. *)
Lemma worker_result_pattern (keys : list (list byte)) (a k : string)
    (m : option string) :
  In (Result a k m) (worker publicKey wd keys) ->
  String.length a = 64%nat /\
  (forall p, workerData_prefix wd = Some p -> Hex.startsWith a p = true) /\
  (forall s, workerData_suffix wd = Some s -> Hex.endsWith a s = true).
Proof.
  intros Hin. unfold worker in Hin.
  apply generateKey_messages in Hin as [H|(sk & _ & Hm & H)]; [discriminate|].
  unfold result_of in H. injection H as Ha _ _. subst a.
  rewrite matches_unfold in Hm. apply andb_true_iff in Hm as [Hp Hs].
  split; [apply search_address_length|].
  split; [intros p E; now rewrite E in Hp|intros s E; now rewrite E in Hs].
Qed.

End Worker.

Section Legacy.
Variable publicKey : list byte -> list byte.
Variable wd : WorkerData.

Lemma legacy_iteration (k : list byte) :
  map with_type (AppLegacy.iteration publicKey wd k)
  = if matching publicKey wd k then [result_of publicKey wd k] else [].
Proof.
  unfold AppLegacy.iteration, matching, result_of, search_address.
  destruct (workerData_multisig wd);
    match goal with |- context [matches ?p ?s ?a] => destruct (matches p s a) end;
    reflexivity.
Qed.

Lemma legacy_generateKey (keys : list (list byte)) :
  map with_type (AppLegacy.generateKey publicKey wd keys)
  = map (result_of publicKey wd) (filter (matching publicKey wd) keys).
Proof.
  induction keys as [|k keys IH]; [reflexivity|].
  cbn [AppLegacy.generateKey filter]. rewrite map_app, legacy_iteration, IH.
  now destruct (matching publicKey wd k).
Qed.

End Legacy.

End WorkerMore.

(** ** More facts about the coordinator *)

Module MainMore.
Import App Spec Vocabulary JSNumberFacts WorkerFacts MainFacts.

Lemma rate_times_app (a b : list Output) :
  rate_times (a ++ b) = rate_times a ++ rate_times b.
Proof.
  induction a as [|x a IH]; [reflexivity|].
  destruct x; cbn [app rate_times]; rewrite IH; reflexivity.
Qed.

Lemma rate_times_result_lines (a k : string) (m : option string) :
  rate_times (result_lines a k m) = [].
Proof. unfold result_lines. destruct m as [[|c m]|]; reflexivity. Qed.

Lemma last_cons_default (x : Z) (l : list Z) (d d' : Z) :
  List.last (x :: l) d = List.last (x :: l) d'.
Proof.
  revert x. induction l as [|y l IH]; intros x; [reflexivity|].
  change (List.last (y :: l) d = List.last (y :: l) d'). apply IH.
Qed.

Lemma spaced_from_snoc (l : list Z) (last t : Z) :
  spaced_from last l -> List.last l last + 1000 <= t ->
  spaced_from last (l ++ [t]).
Proof.
  revert last. induction l as [|x l IH]; intros last Hs Ht.
  - cbn in *. auto.
  - cbn [app spaced_from] in *. destruct Hs as [Hx Hs]. split; [exact Hx|].
    apply IH; [exact Hs|].
    destruct l as [|y l]; [exact Ht|].
    rewrite (last_cons_default y l x last). exact Ht.
Qed.

Lemma result_lines_filter (a k : string) (m : option string) :
  result_lines_of (result_lines a k m)
  = (match m with
     | Some (String c s) => [OutMultisig (String c s); OutStandard a]
     | _ => [OutStandard a]
     end) ++ [OutPrivateKey k].
Proof. unfold result_lines. destruct m as [[|c m]|]; reflexivity. Qed.

Lemma result_lines_standard (a k : string) (m : option string) (x : string) :
  In (OutStandard x) (result_lines a k m) -> x = a.
Proof.
  unfold result_lines. destruct m as [[|c m]|]; cbn; intros H;
    repeat (destruct H as [H|H]; try discriminate; try (now injection H));
    destruct H.
Qed.

Section Coordinator.
Variable args : CliArgs.
Variable startTime : Z.

Local Abbreviation step := (on_message args startTime).
Local Abbreviation run := (run args startTime).

(** The output only grows. *)
Lemma run_stdout_grows (events : list (Z * Message)) (st : Main) :
  exists more, stdout (run st events) = stdout st ++ more.
Proof.
  revert st. induction events as [|[now m] evs IH]; intros st.
  - exists []. cbn. now rewrite app_nil_r.
  - destruct (exitCode st) eqn:E.
    + rewrite run_exited by congruence. exists []. now rewrite app_nil_r.
    + rewrite run_cons by exact E.
      destruct (IH (step st now m)) as [more Hmore]. rewrite Hmore.
      assert (Hstep : exists one, stdout (step st now m) = stdout st ++ one).
      { destruct m as [n|a k ms]; cbn [on_message].
        - destruct (1000 <=? now - lastUpdateTime st); cbn [stdout];
            [eexists; reflexivity|exists []; now rewrite app_nil_r].
        - destruct (count args <=? JSNumber.incr (foundCount st)); cbn [stdout];
            eexists; reflexivity. }
      destruct Hstep as [one ->]. exists (one ++ more). now rewrite app_assoc.
Qed.

(** Without a result event nothing is found and the process goes on. *)
Lemma run_no_result (events : list (Z * Message)) (st : Main) :
  result_events (map snd events) = 0 ->
  exitCode (run st events) = exitCode st /\
  foundCount (run st events) = foundCount st /\
  printed_results (stdout (run st events)) = printed_results (stdout st).
Proof.
  revert st. induction events as [|[now m] evs IH]; intros st Hr.
  - cbn. auto.
  - destruct (exitCode st) eqn:E.
    + rewrite run_exited by congruence. auto.
    + rewrite run_cons by exact E. cbn [map snd] in Hr.
      rewrite result_events_cons in Hr.
      pose proof (result_events_nonneg (map snd evs)).
      destruct m as [n|a k ms]; cbn [is_result] in Hr; [|lia].
      destruct (step_progress args startTime st now n) as (H1 & H2 & _ & H4 & _).
      destruct (IH (step st now (Progress n)) ltac:(lia)) as (I1 & I2 & I3).
      rewrite I1, I2, I3. repeat split; congruence.
Qed.

(** A count of 1 or less is reached by the first result. *)
Lemma run_count_below_one (events : list (Z * Message)) (st : Main) :
  count args <= 1 -> 0 <= foundCount st <= 2 ^ 53 ->
  App.run args startTime st events
  = App.run (with_count args 1) startTime st events.
Proof.
  intros Hc. revert st. induction events as [|[now m] evs IH]; intros st Hf.
  - reflexivity.
  - cbn [App.run]. destruct (exitCode st); [reflexivity|].
    destruct m as [n|a k ms].
    + assert (Hs : on_message args startTime st now (Progress n)
                   = on_message (with_count args 1) startTime st now (Progress n))
        by reflexivity.
      rewrite Hs. apply IH.
      destruct (step_progress (with_count args 1) startTime st now n) as (H1 & _).
      now rewrite H1.
    + assert (Hs : on_message args startTime st now (Result a k ms)
                   = on_message (with_count args 1) startTime st now (Result a k ms)).
      { cbn [on_message with_count count].
        pose proof (incr_range _ Hf) as Hi.
        assert (H1 : 1 <= JSNumber.incr (foundCount st)).
        { destruct (Z.eq_dec (foundCount st) (2 ^ 53)) as [->|];
            [rewrite incr_top; lia|rewrite incr_below; lia]. }
        destruct (Z.leb_spec (count args) (JSNumber.incr (foundCount st)));
          [|lia].
        destruct (Z.leb_spec 1 (JSNumber.incr (foundCount st))); [|lia].
        reflexivity. }
      rewrite Hs. apply IH.
      destruct (step_result (with_count args 1) startTime st now a k ms)
        as (H1 & _).
      cbv zeta in H1. rewrite H1. pose proof (incr_range _ Hf). lia.
Qed.

(** The rate lines keep their distance. *)
Lemma run_rate_spaced (events : list (Z * Message)) (st : Main) (t0 : Z) :
  spaced_from t0 (rate_times (stdout st)) ->
  List.last (rate_times (stdout st)) t0 = lastUpdateTime st - startTime ->
  spaced_from t0 (rate_times (stdout (run st events))).
Proof.
  revert st. induction events as [|[now m] evs IH]; intros st Hs Hl.
  - exact Hs.
  - destruct (exitCode st) eqn:E.
    + now rewrite run_exited by congruence.
    + rewrite run_cons by exact E. apply IH.
      * destruct m as [n|a k ms]; cbn [on_message].
        -- destruct (Z.leb_spec 1000 (now - lastUpdateTime st)); cbn [stdout];
             [|exact Hs].
           rewrite rate_times_app. cbn [rate_times].
           apply spaced_from_snoc; [exact Hs|lia].
        -- fold (result_lines a k ms).
           destruct (count args <=? JSNumber.incr (foundCount st)); cbn [stdout];
             rewrite !rate_times_app, rate_times_result_lines; cbn [rate_times];
             now rewrite ?app_nil_r.
      * destruct m as [n|a k ms]; cbn [on_message].
        -- destruct (Z.leb_spec 1000 (now - lastUpdateTime st));
             cbn [stdout lastUpdateTime]; [|exact Hl].
           rewrite rate_times_app. cbn [rate_times]. now rewrite last_last.
        -- fold (result_lines a k ms).
           destruct (count args <=? JSNumber.incr (foundCount st));
             cbn [stdout lastUpdateTime];
             rewrite !rate_times_app, rate_times_result_lines; cbn [rate_times];
             now rewrite ?app_nil_r.
Qed.

(** An address printed comes from a result message. *)
Lemma run_printed_standard (events : list (Z * Message)) (st : Main) (x : string) :
  In (OutStandard x) (stdout (run st events)) ->
  In (OutStandard x) (stdout st) \/
  exists now k m, In (now, Result x k m) events.
Proof.
  revert st. induction events as [|[now m] evs IH]; intros st Hin.
  - now left.
  - destruct (exitCode st) eqn:E.
    + rewrite run_exited in Hin by congruence. now left.
    + rewrite run_cons in Hin by exact E.
      destruct (IH _ Hin) as [Hst|(now' & k & ms & Hev)].
      * destruct m as [n|a k ms]; cbn [on_message] in Hst.
        -- destruct (1000 <=? now - lastUpdateTime st); cbn [stdout] in Hst;
             [|now left].
           apply in_app_iff in Hst as [Hst|[Hst|[]]]; [now left|discriminate].
        -- fold (result_lines a k ms) in Hst.
           assert (Hcase : In (OutStandard x) (stdout st)
                           \/ In (OutStandard x) (result_lines a k ms)).
           { destruct (count args <=? JSNumber.incr (foundCount st));
               cbn [stdout] in Hst; rewrite ?in_app_iff in Hst.
             - destruct Hst as [Hst|[Hst|Hst]]; auto.
               cbn in Hst. destruct Hst as [H|[H|[H|[]]]]; discriminate.
             - destruct Hst; auto. }
           destruct Hcase as [Hc|Hc]; [now left|].
           apply result_lines_standard in Hc. subst x.
           right. exists now, k, ms. now left.
      * right. exists now', k, ms. now right.
Qed.

End Coordinator.

End MainMore.

(** ** Facts about the version without progress reporting *)

Module LegacyFacts.
Import App Spec Vocabulary JSNumberFacts MainFacts MainMore.

Section Coordinator.
Variable args : CliArgs.
Variable startTime : Z.

Lemma legacy_run_exited (st : AppLegacy.Main)
    (events : list (Z * AppLegacy.Message)) :
  AppLegacy.exitCode st <> None -> AppLegacy.run args startTime st events = st.
Proof.
  intros H. destruct events as [|[now m] rest]; [reflexivity|].
  cbn. destruct (AppLegacy.exitCode st); [reflexivity|congruence].
Qed.

(** The two counters of the older handler move together. *)
Lemma legacy_run_totals (events : list (Z * AppLegacy.Message))
    (st : AppLegacy.Main) :
  AppLegacy.totalGenerated st = AppLegacy.foundCount st ->
  AppLegacy.totalGenerated (AppLegacy.run args startTime st events)
  = AppLegacy.foundCount (AppLegacy.run args startTime st events).
Proof.
  revert st. induction events as [|[now m] evs IH]; intros st H; [exact H|].
  cbn [AppLegacy.run]. destruct (AppLegacy.exitCode st); [exact H|].
  apply IH. unfold AppLegacy.on_message. rewrite H.
  destruct (count args <=? JSNumber.incr (AppLegacy.foundCount st)); reflexivity.
Qed.

Lemma legacy_run_reported_total (events : list (Z * AppLegacy.Message))
    (st : AppLegacy.Main) :
  AppLegacy.exitCode st = None ->
  AppLegacy.totalGenerated st = AppLegacy.foundCount st ->
  (forall x, ~ In (OutTotal x) (AppLegacy.stdout st)) ->
  forall x, In (OutTotal x) (AppLegacy.stdout (AppLegacy.run args startTime st events)) ->
            x = AppLegacy.foundCount (AppLegacy.run args startTime st events).
Proof.
  revert st. induction events as [|[now m] evs IH]; intros st E Ht Hno x Hin.
  - cbn in Hin. now apply Hno in Hin.
  - cbn [AppLegacy.run] in *. rewrite E in *.
    assert (Hlines : forall y,
               ~ In (OutTotal y)
                   ((match AppLegacy.multisigAddress m with
                     | Some (String c s) =>
                         [OutMultisig (String c s); OutStandard (AppLegacy.address m)]
                     | _ => [OutStandard (AppLegacy.address m)]
                     end) ++ [OutPrivateKey (AppLegacy.privateKey m)])).
    { intros y Hy. destruct (AppLegacy.multisigAddress m) as [[|c s]|];
        cbn in Hy; intuition discriminate. }
    unfold AppLegacy.on_message in *. rewrite Ht in *.
    destruct (count args <=? JSNumber.incr (AppLegacy.foundCount st)).
    + rewrite legacy_run_exited in * by (cbn; discriminate).
      cbn [AppLegacy.stdout AppLegacy.foundCount] in *.
      rewrite !in_app_iff in Hin. destruct Hin as [Hin|[Hin|Hin]].
      * now apply Hno in Hin.
      * rewrite <- in_app_iff in Hin. now apply Hlines in Hin.
      * cbn in Hin. destruct Hin as [Hin|[Hin|[]]]; [discriminate|].
        now injection Hin.
    + apply (IH _) in Hin; auto; cbn [AppLegacy.stdout].
      intros y Hy. apply in_app_iff in Hy as [Hy|Hy].
      * now apply Hno in Hy.
      * now apply Hlines in Hy.
Qed.

(** The newer handler and the older one, fed the same results, agree on
    the count, on the exit and on the address and key lines. *)
Lemma legacy_simulation (events : list (Z * Message)) (st : Main)
    (old : AppLegacy.Main) :
  foundCount st = AppLegacy.foundCount old ->
  exitCode st = AppLegacy.exitCode old ->
  result_lines_of (stdout st) = result_lines_of (AppLegacy.stdout old) ->
  let st' := App.run args startTime st events in
  let old' := AppLegacy.run args startTime old (without_type events) in
  foundCount st' = AppLegacy.foundCount old' /\
  exitCode st' = AppLegacy.exitCode old' /\
  result_lines_of (stdout st') = result_lines_of (AppLegacy.stdout old').
Proof.
  cbv zeta. revert st old.
  induction events as [|[now m] evs IH]; intros st old Hf He Ho.
  - cbn. auto.
  - destruct (exitCode st) eqn:E.
    + rewrite run_exited by congruence.
      rewrite legacy_run_exited by congruence. rewrite E. auto.
    + rewrite run_cons by exact E. destruct m as [n|a k ms].
      * cbn [without_type]. apply IH.
        -- destruct (step_progress args startTime st now n) as (H1 & _). congruence.
        -- destruct (step_progress args startTime st now n) as (_ & H2 & _). congruence.
        -- rewrite <- Ho. cbn [on_message].
           destruct (1000 <=? now - lastUpdateTime st); cbn [stdout]; [|reflexivity].
           unfold result_lines_of. rewrite filter_app. cbn. now rewrite app_nil_r.
      * cbn [without_type AppLegacy.run]. rewrite <- He.
        unfold AppLegacy.on_message, on_message.
        cbn [AppLegacy.multisigAddress AppLegacy.address AppLegacy.privateKey].
        rewrite <- Hf.
        destruct (count args <=? JSNumber.incr (foundCount st));
          apply IH; cbn [foundCount AppLegacy.foundCount exitCode
                         AppLegacy.exitCode stdout AppLegacy.stdout];
          try reflexivity; try congruence;
          unfold result_lines_of in *; rewrite !filter_app, Ho;
          destruct ms as [[|c s]|]; reflexivity.
Qed.

End Coordinator.

End LegacyFacts.

(** ** More facts about the estimate *)

Module EstimateMore.
Import App EstimateFacts.

Lemma attemptsNeeded_product (L : Q) (n : nat) :
  (n < 256)%nat ->
  attemptsNeeded L n = Num (Qceiling (L * inject_Z (16 ^ Z.of_nat n))).
Proof.
  intros Hn. unfold attemptsNeeded, probabilityPerTry, pow16.
  destruct (Nat.ltb_spec n 256) as [_|]; [|lia].
  pose proof (pow16_positive n) as Hpos.
  destruct (Qeq_bool (/ inject_Z (16 ^ Z.of_nat n)) (inject_Z 0)) eqn:E.
  - apply Qeq_bool_iff in E.
    pose proof (Qinv_lt_0_compat _ Hpos) as Hinv.
    rewrite E in Hinv. now apply Qlt_irrefl in Hinv.
  - f_equal. apply Qceiling_comp. unfold Qdiv. now rewrite Qinv_involutive.
Qed.

Lemma Qceiling_least (x : Q) (z : Z) : (x <= inject_Z z)%Q -> Qceiling x <= z.
Proof.
  intros H. pose proof (Qceiling_lt x) as Hc.
  assert (Hlt : (inject_Z (Qceiling x - 1) < inject_Z z)%Q)
    by (eapply Qlt_le_trans; eassumption).
  rewrite <- Zlt_Qlt in Hlt. lia.
Qed.

(** Sixteen times as much, up to the rounding. *)
Lemma Qceiling_times_16 (x : Q) :
  16 * (Qceiling x - 1) < Qceiling (inject_Z 16 * x) <= 16 * Qceiling x.
Proof.
  pose proof (Qle_ceiling x) as Hup. pose proof (Qceiling_lt x) as Hlo.
  split.
  - pose proof (Qle_ceiling (inject_Z 16 * x)) as H16.
    assert (Hlt : (inject_Z (16 * (Qceiling x - 1))
                   < inject_Z (Qceiling (inject_Z 16 * x)))%Q).
    { eapply Qlt_le_trans; [|exact H16].
      rewrite inject_Z_mult.
      apply Qmult_lt_l; [reflexivity|exact Hlo]. }
    now rewrite <- Zlt_Qlt in Hlt.
  - apply Qceiling_least. rewrite inject_Z_mult.
    apply Qmult_le_l; [reflexivity|exact Hup].
Qed.

End EstimateMore.

(** * Further theorems *)

Import Vocabulary.
Import NonceFacts WorkerMore MainMore LegacyFacts EstimateMore.

(** X1.  [bytesToHex] can be undone: decoding its output as hex gives
    the bytes back, the output has two characters per byte, and two byte
    sequences with the same rendering are equal. *)
Theorem X1_bytesToHex_round_trip (a b : list byte) :
  Hex.Buffer_from_hex (bytesToHex a) = a /\
  String.length (bytesToHex a) = (2 * List.length a)%nat /\
  (bytesToHex a = bytesToHex b <-> a = b).
Proof.
  split; [apply Buffer_from_hex_bytesToHex|split; [apply bytesToHex_length|]].
  split; [|now intros ->].
  intros H. apply (f_equal Hex.Buffer_from_hex) in H.
  now rewrite !Buffer_from_hex_bytesToHex in H.
Qed.

(** X2.  What a nonce [n >= 0] contributes to the multisig digest: when
    its hex string has an even number of digits, the minimal big-endian
    bytes of [n]; when it has an odd number, the last digit is lost and
    the bytes are those of [n / 16]. *)
Theorem X2_nonce_bytes (creator : list byte) (n : N) :
  let digits := Hex.toString16 (Z.of_N n) in
  let kept := if Nat.even (String.length digits) then n else (n / 16)%N in
  Hex.Buffer_from_hex digits = minimal_big_endian kept /\
  createMultisigAccountAddress creator (Z.of_N n)
  = deriveMultisigAddress creator kept.
Proof.
  cbv zeta. pose proof (nonce_bytes n) as H. unfold hex_string in H.
  split; [exact H|].
  unfold createMultisigAccountAddress, deriveMultisigAddress. now rewrite H.
Qed.

(** X3.  Distinct nonces give the same multisig address: every nonce
    below 16, negative ones included, gives the address of nonce 0, and
    a nonce whose hex string has an odd number of digits gives the
    address of that nonce divided by 16. *)
Theorem X3_nonce_collisions (creator : list byte) :
  (forall z, z < 16 ->
     createMultisigAccountAddress creator z
     = createMultisigAccountAddress creator 0) /\
  (forall n : N,
     Nat.even (String.length (Hex.toString16 (Z.of_N n))) = false ->
     createMultisigAccountAddress creator (Z.of_N n)
     = createMultisigAccountAddress creator (Z.of_N (n / 16))).
Proof.
  assert (Hbytes : forall x y,
             Hex.Buffer_from_hex (Hex.toString16 x)
             = Hex.Buffer_from_hex (Hex.toString16 y) ->
             createMultisigAccountAddress creator x
             = createMultisigAccountAddress creator y).
  { intros x y H. unfold createMultisigAccountAddress. now rewrite H. }
  split.
  - intros z Hz. apply Hbytes.
    change (Hex.Buffer_from_hex (Hex.toString16 0)) with (@nil byte).
    destruct z as [|p|p].
    + reflexivity.
    + change (Z.pos p) with (Z.of_N (N.pos p)).
      fold (hex_string (N.pos p)). rewrite hex_string_small by lia.
      reflexivity.
    + apply negative_nonce_bytes.
  - intros n Hodd. apply Hbytes.
    fold (hex_string n) in *. fold (hex_string (n / 16)).
    rewrite !nonce_bytes, Hodd.
    destruct (N.lt_ge_cases n 16) as [Hlt|Hge].
    + rewrite (N.div_small n 16) by exact Hlt. reflexivity.
    + rewrite hex_string_step, length_append in Hodd by exact Hge.
      cbn [String.length] in Hodd.
      replace (String.length (hex_string (n / 16)) + 1)%nat
        with (S (String.length (hex_string (n / 16)))) in Hodd by lia.
      rewrite Nat.even_succ, <- Nat.negb_even in Hodd.
      apply negb_false_iff in Hodd. now rewrite Hodd.
Qed.

(** X4.  The results a worker posts are exactly those of the generated
    keys whose address matches, one each, in the order of generation. *)
Theorem X4_worker_results_in_key_order
    (publicKey : list byte -> list byte) (wd : WorkerData)
    (keys : list (list byte)) :
  filter is_result (worker publicKey wd keys)
  = map (result_of publicKey wd) (filter (matching publicKey wd) keys) /\
  result_events (worker publicKey wd keys) <= Z.of_nat (List.length keys).
Proof.
  unfold worker. split; [apply generateKey_result_list|].
  unfold result_events. rewrite generateKey_result_list, length_map.
  pose proof (filter_length_le (matching publicKey wd) keys). lia.
Qed.

(** X5.  A result a worker posts carries an address of 64 lowercase hex
    characters that starts with the configured prefix and ends with the
    configured suffix, the hex of one of the generated keys, and the
    same address again as [multisigAddress] exactly when the multisig
    flag is set. *)
Theorem X5_result_satisfies_pattern
    (publicKey : list byte -> list byte) (wd : WorkerData)
    (keys : list (list byte)) (a k : string) (m : option string) :
  In (Result a k m) (worker publicKey wd keys) ->
  String.length a = 64%nat /\
  lower_hex a = true /\
  (forall p, workerData_prefix wd = Some p -> Hex.startsWith a p = true) /\
  (forall s, workerData_suffix wd = Some s -> Hex.endsWith a s = true) /\
  (exists key, In key keys /\ k = bytesToHex key) /\
  m = (if workerData_multisig wd then Some a else None).
Proof.
  intros Hin. unfold worker in Hin.
  apply generateKey_messages in Hin as [H|(sk & Hsk & Hm & H)]; [discriminate|].
  unfold result_of in H. injection H as Ha Hk Hms. subst a k m.
  rewrite matches_unfold in Hm. apply andb_true_iff in Hm as [Hp Hs].
  split; [apply search_address_length|].
  split; [unfold search_address; apply bytesToHex_lower|].
  split; [intros p E; now rewrite E in Hp|].
  split; [intros s E; now rewrite E in Hs|].
  split; [now exists sk|reflexivity].
Qed.

Lemma X5_witness :
  let wd := {| workerData_prefix := Some "57df"%string;
               workerData_suffix := Some "993"%string;
               workerData_multisig := true |} in
  let a := "57dfef913b458934c3c85389d813bc2d961e03d1a29a5a09f7d1ce7bdebc0993"%string in
  let k := "0000000000000000000000000000000000000000000000000000000000000000"%string in
  In (Result a k (Some a)) (worker sample_publicKey wd [zero_key]) /\
  String.length a = 64%nat.
Proof.
  cbv zeta.
  assert (Hin : In (Result
                      "57dfef913b458934c3c85389d813bc2d961e03d1a29a5a09f7d1ce7bdebc0993"
                      "0000000000000000000000000000000000000000000000000000000000000000"
                      (Some "57dfef913b458934c3c85389d813bc2d961e03d1a29a5a09f7d1ce7bdebc0993"%string))
                   (worker sample_publicKey
                      {| workerData_prefix := Some "57df"%string;
                         workerData_suffix := Some "993"%string;
                         workerData_multisig := true |} [zero_key]))
    by (vm_compute; left; reflexivity).
  split; [exact Hin|].
  exact (proj1 (X5_result_satisfies_pattern _ _ _ _ _ _ Hin)).
Defined.

(** X6.  End to end: when the events are an interleaving of the traces
    of workers started with the configuration, every address the main
    thread prints on a "Standard account address" line starts with the
    configured prefix and ends with the configured suffix. *)
Theorem X6_printed_addresses_satisfy_pattern
    (publicKey : list byte -> list byte) (args : CliArgs) (startTime : Z)
    (keyss : list (list (list byte))) (events : list (Z * Message)) :
  merge (map (worker publicKey (workerData args)) keyss) (map snd events) ->
  forall a, In (OutStandard a) (stdout (main args startTime events)) ->
    (forall p, prefix args = Some p -> Hex.startsWith a p = true) /\
    (forall s, suffix args = Some s -> Hex.endsWith a s = true).
Proof.
  intros Hm a Hin. unfold main in Hin.
  apply run_printed_standard in Hin as [[]|(now & k & m & Hev)].
  assert (Hmsg : In (Result a k m) (map snd events)).
  { change (Result a k m) with (snd (now, Result a k m)). now apply in_map. }
  destruct (merge_In _ _ _ Hm Hmsg) as (li & Hli & Hx).
  apply in_map_iff in Hli as (keys & <- & _).
  unfold worker in Hx.
  apply generateKey_messages in Hx as [H|(sk & _ & Hmatch & H)]; [discriminate|].
  unfold result_of in H. injection H as Ha _ _. subst a.
  rewrite matches_unfold in Hmatch. apply andb_true_iff in Hmatch as [Hp Hs].
  cbn [workerData workerData_prefix workerData_suffix] in Hp, Hs.
  split; [intros p E; now rewrite E in Hp|intros s E; now rewrite E in Hs].
Qed.

Lemma X6_witness :
  let args := {| prefix := Some "08e8"%string; suffix := None; multisig := false;
                 count := 1; threads := 1 |} in
  let events := map (pair 5) (worker sample_publicKey (workerData args) [zero_key]) in
  merge (map (worker sample_publicKey (workerData args)) [[zero_key]])
        (map snd events) /\
  forall a, In (OutStandard a) (stdout (main args 0 events)) ->
            Hex.startsWith a "08e8" = true.
Proof.
  cbv zeta.
  assert (Hm : merge (map (worker sample_publicKey
                             (workerData
                                {| prefix := Some "08e8"%string; suffix := None;
                                   multisig := false; count := 1; threads := 1 |}))
                          [[zero_key]])
                     (map snd
                        (map (pair 5)
                           (worker sample_publicKey
                              (workerData
                                 {| prefix := Some "08e8"%string; suffix := None;
                                    multisig := false; count := 1; threads := 1 |})
                              [zero_key])))).
  { rewrite map_snd_stamp. apply merge_single. }
  split; [exact Hm|].
  intros a Hin.
  exact (proj1 (X6_printed_addresses_satisfy_pattern _ _ _ _ _ Hm a Hin)
               "08e8"%string eq_refl).
Defined.

(** X7.  An address has 64 characters, so a prefix or a suffix of more
    than 64 characters is never matched: the workers post no result. *)
Theorem X7_pattern_longer_than_address_never_matches
    (publicKey : list byte -> list byte) (args : CliArgs)
    (keys : list (list byte)) :
  longer_than_address (prefix args) || longer_than_address (suffix args) = true ->
  (forall a k m, ~ In (Result a k m) (worker publicKey (workerData args) keys)) /\
  result_events (worker publicKey (workerData args) keys) = 0.
Proof.
  intros Hlong.
  assert (Hres : forall a k m,
             ~ In (Result a k m) (worker publicKey (workerData args) keys)).
  { intros a k m Hin.
    destruct (worker_result_pattern publicKey (workerData args) keys a k m Hin)
      as (Hlen & Hp & Hs).
    cbn [workerData workerData_prefix workerData_suffix] in Hp, Hs.
    apply orb_true_iff in Hlong as [Hl|Hl].
    - destruct (prefix args) as [p|]; [|discriminate].
      cbn [longer_than_address] in Hl. apply Nat.ltb_lt in Hl.
      specialize (Hp p eq_refl). apply startsWith_spec in Hp as [rest Hp].
      rewrite Hp, length_append in Hlen. lia.
    - destruct (suffix args) as [s|]; [|discriminate].
      cbn [longer_than_address] in Hl. apply Nat.ltb_lt in Hl.
      specialize (Hs s eq_refl). apply endsWith_spec in Hs as [front Hs].
      rewrite Hs, length_append in Hlen. lia. }
  split; [exact Hres|now apply result_events_none].
Qed.

Lemma X7_witness :
  let args := {| prefix := Some "00000000000000000000000000000000000000000000000000000000000000000"%string;
                 suffix := None; multisig := false; count := 1; threads := 1 |} in
  longer_than_address (prefix args) || longer_than_address (suffix args) = true /\
  result_events (worker sample_publicKey (workerData args) (repeat zero_key 20)) = 0.
Proof.
  cbv zeta. split; [reflexivity|].
  refine (proj2 (X7_pattern_longer_than_address_never_matches sample_publicKey
                   {| prefix := Some "00000000000000000000000000000000000000000000000000000000000000000"%string;
                      suffix := None; multisig := false; count := 1; threads := 1 |}
                   (repeat zero_key 20) _)).
  reflexivity.
Defined.

(** X8.  The rate line is shown at most once per second: started with
    an empty output, the handler shows each rate line at least 1000 ms
    after the one before, and the first at least 1000 ms after the
    initial [lastUpdateTime]. *)
Theorem X8_rate_lines_one_second_apart
    (args : CliArgs) (startTime : Z) (st : Main) (events : list (Z * Message)) :
  stdout st = [] ->
  spaced_from (lastUpdateTime st - startTime)
              (rate_times (stdout (run args startTime st events))).
Proof.
  intros Hout. apply run_rate_spaced; rewrite Hout; cbn; auto.
Qed.

Lemma X8_witness :
  let args := {| prefix := Some "ab"%string; suffix := None; multisig := false;
                 count := 3; threads := 2 |} in
  let events := [(500, Progress 1000); (1200, Progress 1000);
                 (1900, Progress 1000); (2000, Result "ab" "k" None);
                 (2300, Progress 1000); (2400, Progress 1000)] in
  stdout (initial 0) = [] /\
  rate_times (stdout (run args 0 (initial 0) events)) = [1200; 2300] /\
  spaced_from (lastUpdateTime (initial 0) - 0)
              (rate_times (stdout (run args 0 (initial 0) events))).
Proof.
  cbv zeta. split; [reflexivity|split; [reflexivity|]].
  apply X8_rate_lines_one_second_apart. reflexivity.
Defined.

(** X9.  Whatever the count, zero or negative included, the process
    does not exit before a result arrives: with progress events only
    nothing is found, no result is printed and the process goes on. *)
Theorem X9_no_result_no_exit
    (args : CliArgs) (startTime : Z) (events : list (Z * Message)) :
  result_events (map snd events) = 0 ->
  exitCode (main args startTime events) = None /\
  foundCount (main args startTime events) = 0 /\
  printed_results (stdout (main args startTime events)) = 0.
Proof.
  intros Hr. unfold main.
  destruct (run_no_result args startTime events (initial startTime) Hr)
    as (H1 & H2 & H3).
  rewrite H1, H2, H3. repeat split.
Qed.

Lemma X9_witness :
  let args := {| prefix := None; suffix := None; multisig := false;
                 count := 0; threads := 1 |} in
  let events := [(10, Progress 1000); (1500, Progress 1000)] in
  result_events (map snd events) = 0 /\
  exitCode (main args 0 events) = None.
Proof.
  cbv zeta. split; [reflexivity|].
  refine (proj1 (X9_no_result_no_exit _ 0 _ _)). reflexivity.
Defined.

(** X10.  A count of zero or less acts as a count of one: the handler
    behaves exactly as with count 1, so the first result is printed and
    ends the process. *)
Theorem X10_count_below_one_acts_as_one
    (args : CliArgs) (startTime : Z) (events : list (Z * Message)) :
  count args <= 1 ->
  main args startTime events = main (with_count args 1) startTime events /\
  printed_results (stdout (main args startTime events))
  = Z.min 1 (result_events (map snd events)) /\
  (exitCode (main args startTime events) = Some 0 <->
   1 <= result_events (map snd events)).
Proof.
  intros Hc. unfold main.
  rewrite (run_count_below_one args startTime events (initial startTime) Hc)
    by (cbn; lia).
  split; [reflexivity|].
  destruct (run_found (with_count args 1) startTime events (initial startTime))
    as (H1 & _ & H3 & H4 & H5); [reflexivity|cbn; lia|cbn; lia|].
  cbn [initial foundCount stdout with_count count] in *.
  change (printed_results []) with 0 in H3.
  rewrite Z.add_0_l in *. rewrite Z.sub_0_r in *.
  split; [lia|]. split.
  - intros He.
    destruct (Z.le_gt_cases 1 (result_events (map snd events))) as [|Hlt];
      [assumption|].
    rewrite H4 in He by lia. discriminate.
  - intros Hle. now apply H5.
Qed.

Lemma X10_witness :
  let args := {| prefix := None; suffix := None; multisig := false;
                 count := 0; threads := 1 |} in
  let events := [(10, Progress 1000); (20, Result "aa" "k1" None);
                 (30, Result "bb" "k2" None)] in
  count args <= 1 /\
  printed_results (stdout (main args 0 events)) = 1.
Proof.
  cbv zeta. split; [cbn; lia|].
  exact (proj1 (proj2 (X10_count_below_one_acts_as_one
                         {| prefix := None; suffix := None; multisig := false;
                            count := 0; threads := 1 |} 0
                         [(10, Progress 1000); (20, Result "aa" "k1" None);
                          (30, Result "bb" "k2" None)]
                         ltac:(cbn; lia)))).
Defined.

(** X12.  Each further character multiplies the attempts needed by 16,
    up to the rounding: below 256 characters,
    [16 * (attemptsNeeded n - 1) < attemptsNeeded (n + 1) <= 16 * attemptsNeeded n]. *)
Theorem X12_estimate_sixteen_per_character (L : Q) (n : nat) :
  (S n < 256)%nat ->
  exists a b,
    attemptsNeeded L n = Num a /\
    attemptsNeeded L (S n) = Num b /\
    16 * (a - 1) < b <= 16 * a.
Proof.
  intros Hn.
  rewrite !attemptsNeeded_product by lia.
  do 2 eexists. split; [reflexivity|split; [reflexivity|]].
  assert (Hpow : (L * inject_Z (16 ^ Z.of_nat (S n))
                  == inject_Z 16 * (L * inject_Z (16 ^ Z.of_nat n)))%Q).
  { rewrite Nat2Z.inj_succ, Z.pow_succ_r by lia.
    rewrite inject_Z_mult. ring. }
  rewrite (Qceiling_comp _ _ Hpow).
  apply Qceiling_times_16.
Qed.

Lemma X12_witness :
  (4 < 256)%nat /\
  exists a b,
    attemptsNeeded neg_log_005_double 3 = Num a /\
    attemptsNeeded neg_log_005_double 4 = Num b /\
    16 * (a - 1) < b <= 16 * a.
Proof.
  split; [lia|].
  apply (X12_estimate_sixteen_per_character neg_log_005_double 3). lia.
Defined.

(** X13.  The version without progress reporting posts the same results
    as the version with it, in the same order, for the same keys. *)
Theorem X13_legacy_worker_same_results
    (publicKey : list byte -> list byte) (wd : WorkerData)
    (keys : list (list byte)) :
  map with_type (AppLegacy.generateKey publicKey wd keys)
  = filter is_result (worker publicKey wd keys).
Proof.
  unfold worker. now rewrite legacy_generateKey, generateKey_result_list.
Qed.

(** X14.  In the version without progress reporting [totalGenerated]
    always equals [foundCount]: the "Total addresses generated" printed
    at the end is the number of addresses found, not the number of keys
    tried. *)
Theorem X14_legacy_total_is_found_count
    (args : CliArgs) (startTime : Z) (events : list (Z * AppLegacy.Message)) :
  AppLegacy.totalGenerated (AppLegacy.main args startTime events)
  = AppLegacy.foundCount (AppLegacy.main args startTime events) /\
  (forall x,
      In (OutTotal x) (AppLegacy.stdout (AppLegacy.main args startTime events)) ->
      x = AppLegacy.foundCount (AppLegacy.main args startTime events)).
Proof.
  unfold AppLegacy.main. split.
  - now apply legacy_run_totals.
  - apply legacy_run_reported_total; try reflexivity. intros x [].
Qed.

(** X15.  Fed the same result messages, the handler with progress
    reporting and the one without count the same number of results, exit
    at the same message and print the same address and key lines. *)
Theorem X15_legacy_handler_agrees
    (args : CliArgs) (startTime : Z) (events : list (Z * Message)) :
  foundCount (main args startTime events)
  = AppLegacy.foundCount (AppLegacy.main args startTime (without_type events)) /\
  exitCode (main args startTime events)
  = AppLegacy.exitCode (AppLegacy.main args startTime (without_type events)) /\
  result_lines_of (stdout (main args startTime events))
  = result_lines_of
      (AppLegacy.stdout (AppLegacy.main args startTime (without_type events))).
Proof.
  unfold main, AppLegacy.main.
  apply (legacy_simulation args startTime events); reflexivity.
Qed.

(** X16.  What the main thread prints for a result a worker posted: a
    blank line, then, with the multisig flag set, the same address on
    both the "Multisig account address" and the "Standard account
    address" line, or without it the address on the "Standard account
    address" line alone, then the private key. *)
Theorem X16_lines_printed_for_a_result
    (publicKey : list byte -> list byte) (wd : WorkerData)
    (keys : list (list byte)) (a k : string) (m : option string)
    (args : CliArgs) (startTime : Z) (st : Main) (now : Z) :
  In (Result a k m) (worker publicKey wd keys) ->
  exists more,
    stdout (on_message args startTime st now (Result a k m))
    = stdout st
      ++ [OutNewline]
      ++ (if workerData_multisig wd
          then [OutMultisig a; OutStandard a]
          else [OutStandard a])
      ++ [OutPrivateKey k] ++ more.
Proof.
  intros Hin.
  destruct (worker_result_pattern publicKey wd keys a k m Hin) as (Hlen & _).
  unfold worker in Hin.
  apply generateKey_messages in Hin as [H|(sk & _ & _ & H)]; [discriminate|].
  unfold result_of in H. injection H as Ha _ Hm. rewrite <- Ha in Hm.
  destruct a as [|c rest]; [discriminate|].
  cbn [on_message].
  destruct (workerData_multisig wd); subst m;
    destruct (count args <=? JSNumber.incr (foundCount st)); cbn [stdout];
    eexists; repeat (rewrite <- app_assoc; cbn [app]);
    try reflexivity; now rewrite app_nil_r.
Qed.

Lemma X16_witness :
  let wd := {| workerData_prefix := None; workerData_suffix := None;
               workerData_multisig := true |} in
  let args := {| prefix := None; suffix := None; multisig := true;
                 count := 2; threads := 1 |} in
  let a := "57dfef913b458934c3c85389d813bc2d961e03d1a29a5a09f7d1ce7bdebc0993"%string in
  let k := "0000000000000000000000000000000000000000000000000000000000000000"%string in
  In (Result a k (Some a)) (worker sample_publicKey wd [zero_key]) /\
  exists more,
    stdout (on_message args 0 (initial 0) 7 (Result a k (Some a)))
    = [] ++ [OutNewline] ++ [OutMultisig a; OutStandard a]
      ++ [OutPrivateKey k] ++ more.
Proof.
  cbv zeta.
  assert (Hin : In (Result
                      "57dfef913b458934c3c85389d813bc2d961e03d1a29a5a09f7d1ce7bdebc0993"
                      "0000000000000000000000000000000000000000000000000000000000000000"
                      (Some "57dfef913b458934c3c85389d813bc2d961e03d1a29a5a09f7d1ce7bdebc0993"%string))
                   (worker sample_publicKey
                      {| workerData_prefix := None; workerData_suffix := None;
                         workerData_multisig := true |} [zero_key]))
    by (vm_compute; left; reflexivity).
  split; [exact Hin|].
  exact (X16_lines_printed_for_a_result _ _ _ _ _ _
           {| prefix := None; suffix := None; multisig := true;
              count := 2; threads := 1 |} 0 (initial 0) 7 Hin).
Defined.
